(** * Net-flow aggregation of CVM fund daily reports (fundos_capt.py)

    Shallow embedding of the core of [src/fundos_capt.py]:
    - section 6, the [groupby(["CNPJ_FUNDO_CLASSE", "Data_Comptc"]).agg(sum)]
      that builds [df_agg];
    - section 7, the duplicate detection [n_duplicados] and its
      re-aggregation branch;
    - section 8, the per-fund time-based rolling sums over 30/90/180 days;
    - section 12, the filter on the global maximum date [data_maxima].

    Modelling choices:
    - a date ([Data_Comptc], a day-resolution datetime) is a day number in [Z]
      (days since 1970-01-01); [pd.to_datetime(..., errors="coerce")] yields
      [None] for a missing or unparseable date (NaT);
    - a net flow is an exact number in [Z] (e.g. cents); floating-point
      rounding is not modelled; [pd.to_numeric(..., errors="coerce")] yields
      [None] for an invalid value (NaN);
    - the fund identifier is the normalised [CNPJ_FUNDO_CLASSE] string. *)

From Stdlib Require Import ZArith List String Ascii Bool Lia.
From Stdlib Require Import Permutation Sorting.Sorted.
From Stdlib Require Structures.OrdersEx Classes.RelationClasses.
Import ListNotations.
Open Scope Z_scope.

(** ** Calendar dates *)

(** Day number of a proleptic Gregorian date, 1970-01-01 being day 0. *)
Definition days_from_civil (y m d : Z) : Z :=
  let y' := if m <=? 2 then y - 1 else y in
  let era := y' / 400 in
  let yoe := y' - era * 400 in
  let mp := if 2 <? m then m - 3 else m + 9 in
  let doy := (153 * mp + 2) / 5 + d - 1 in
  let doe := yoe * 365 + yoe / 4 - yoe / 100 + doy in
  era * 146097 + doe - 719468.

(** ** Records *)

(** A row of the consolidated daily report after section 5: fund id,
    coerced date, coerced net flow [CAPTC_DIA - RESG_DIA]. *)
Record FlowRecord := {
  CNPJ_FUNDO_CLASSE : string;
  Data_Comptc : option Z;
  Captacao_Liquida : option Z
}.

(** A row of [df_agg]: one per (fund, date) group. *)
Record AggRow := {
  a_CNPJ : string;
  a_Data : Z;
  a_Captacao : Z
}.

(** A row after section 8, with the three rolling columns. *)
Record WinRow := {
  w_CNPJ : string;
  w_Data : Z;
  w_Captacao : Z;
  Captacao_30D : Z;
  Captacao_90D : Z;
  Captacao_180D : Z
}.

(** ** Group keys and their order

    pandas sorts group keys lexicographically: first the fund id (string
    order by code point), then the date. *)

Definition key := (string * Z)%type.

Definition key_compare (k1 k2 : key) : comparison :=
  match String.compare (fst k1) (fst k2) with
  | Eq => Z.compare (snd k1) (snd k2)
  | c => c
  end.

Definition key_eqb (k1 k2 : key) : bool :=
  match key_compare k1 k2 with Eq => true | _ => false end.

Definition key_lt (k1 k2 : key) : Prop := key_compare k1 k2 = Lt.
Definition key_le (k1 k2 : key) : Prop := key_compare k1 k2 <> Gt.

Definition agg_key (r : AggRow) : key := (a_CNPJ r, a_Data r).

(** ** Section 6: aggregation, one row per fund / date *)

(** Insertion of a value into the accumulator of a sum-aggregation,
    an association list kept in ascending key order (the order in which
    [groupby] returns its groups). *)
Fixpoint add_key (k : key) (v : Z) (acc : list (key * Z)) : list (key * Z) :=
  match acc with
  | [] => [(k, v)]
  | (k', v') :: rest =>
      match key_compare k k' with
      | Lt => (k, v) :: acc
      | Eq => (k', v' + v) :: rest
      | Gt => (k', v') :: add_key k v rest
      end
  end.

(** [groupby(keys).agg("sum")] over (key, value) pairs. *)
Definition group_sum (l : list (key * Z)) : list (key * Z) :=
  fold_left (fun acc kv => add_key (fst kv) (snd kv) acc) l [].

(** Value of key [k] in an aggregated table (like [.loc[k]]). *)
Fixpoint assoc_lookup (k : key) (l : list (key * Z)) : option Z :=
  match l with
  | [] => None
  | (k', v) :: rest => if key_eqb k k' then Some v else assoc_lookup k rest
  end.

(** [sum] skips NaN: an invalid net flow adds nothing. *)
Definition flow_value (r : FlowRecord) : Z :=
  match Captacao_Liquida r with Some v => v | None => 0 end.

(** [groupby] drops rows whose key contains NaT ([dropna=True]). *)
Definition group_rows (df : list FlowRecord) : list (key * Z) :=
  flat_map (fun r =>
    match Data_Comptc r with
    | Some d => [((CNPJ_FUNDO_CLASSE r, d), flow_value r)]
    | None => []
    end) df.

(** Sum of the values paired with key [k]. *)
Definition sum_key (k : key) (l : list (key * Z)) : Z :=
  fold_right (fun kv s => (if key_eqb k (fst kv) then snd kv else 0) + s) 0 l.

Definition to_row (kv : key * Z) : AggRow :=
  {| a_CNPJ := fst (fst kv); a_Data := snd (fst kv); a_Captacao := snd kv |}.

(** [df_agg = df.groupby(["CNPJ_FUNDO_CLASSE", "Data_Comptc"],
    as_index=False).agg({"Captacao_Liquida": "sum"})] *)
Definition df_agg (df : list FlowRecord) : list AggRow :=
  map to_row (group_sum (group_rows df)).

(** An aggregated row seen as an input row (all its columns valid). *)
Definition embed (r : AggRow) : FlowRecord :=
  {| CNPJ_FUNDO_CLASSE := a_CNPJ r; Data_Comptc := Some (a_Data r);
     Captacao_Liquida := Some (a_Captacao r) |}.

(** ** Section 7: duplicate detection *)

(** [duplicados = df.groupby(["CNPJ_FUNDO_CLASSE", "Data_Comptc"]).size()] *)
Definition duplicados (df : list AggRow) : list (key * Z) :=
  group_sum (map (fun r => (agg_key r, 1)) df).

(** [n_duplicados = (duplicados > 1).sum()] *)
Definition n_duplicados (df : list AggRow) : nat :=
  List.length (filter (fun kv => 1 <? snd kv) (duplicados df)).

(** [if n_duplicados > 0: df = df.groupby(...).agg(sum)] *)
Definition validate (df : list AggRow) : list AggRow :=
  if (0 <? n_duplicados df)%nat then df_agg (map embed df) else df.

(** ** Section 8: rolling windows *)

(** [df.sort_values(["CNPJ_FUNDO_CLASSE", "Data_Comptc"])], as an
    insertion sort on the key. *)
Fixpoint insert_row (r : AggRow) (l : list AggRow) : list AggRow :=
  match l with
  | [] => [r]
  | x :: t =>
      match key_compare (agg_key r) (agg_key x) with
      | Gt => x :: insert_row r t
      | _ => r :: l
      end
  end.

Definition sort_values (df : list AggRow) : list AggRow :=
  fold_right insert_row [] df.

Definition sum_by {A} (f : A -> Z) (l : list A) : Z :=
  fold_right (fun x s => f x + s) 0 l.

(** Row [x] lies in the time window ["<W>D"] (closed on the right) of the
    current row [r] within [r]'s group: same fund, [a_Data r - W < a_Data x]. *)
Definition in_window (W : Z) (r x : AggRow) : bool :=
  String.eqb (a_CNPJ x) (a_CNPJ r) && (a_Data r - W <? a_Data x).

(** [groupby("CNPJ_FUNDO_CLASSE")["Captacao_Liquida"].rolling("<W>D",
    min_periods=1).sum()] at the current row [r], where [hist] is [r]
    followed by the rows before it in the sorted frame: the window holds
    the rows of [r]'s group up to [r] whose date is in [(d - W, d]]. *)
Definition window_sum (W : Z) (r : AggRow) (hist : list AggRow) : Z :=
  sum_by (fun x => if in_window W r x then a_Captacao x else 0) hist.

Definition win_of (r : AggRow) (s30 s90 s180 : Z) : WinRow :=
  {| w_CNPJ := a_CNPJ r; w_Data := a_Data r; w_Captacao := a_Captacao r;
     Captacao_30D := s30; Captacao_90D := s90; Captacao_180D := s180 |}.

(** The three columns, assigned back row by row to the sorted frame
    (the rolling result has the frame's index, so pandas assigns it
    positionally). *)
Fixpoint rolling_aux (hist : list AggRow) (df : list AggRow) : list WinRow :=
  match df with
  | [] => []
  | r :: rest =>
      let h := r :: hist in
      win_of r (window_sum 30 r h) (window_sum 90 r h) (window_sum 180 r h)
        :: rolling_aux h rest
  end.

Definition rolling (df : list AggRow) : list WinRow :=
  rolling_aux [] (sort_values df).

(** ** Section 12: snapshot at the most recent date *)

(** [data_maxima = df["Data_Comptc"].max()]; [None] is NaT (empty frame). *)
Definition data_maxima (df : list WinRow) : option Z :=
  fold_left (fun m r =>
    match m with
    | None => Some (w_Data r)
    | Some x => Some (Z.max x (w_Data r))
    end) df None.

(** [df_filtrado = df[df["Data_Comptc"] == data_maxima]]; a comparison with
    NaT is false. *)
Definition df_filtrado (df : list WinRow) : list WinRow :=
  let m := data_maxima df in
  filter (fun r => match m with Some x => w_Data r =? x | None => false end) df.

(** ** Section 1: [ultimos_meses], the last N months as "YYYYMM" *)

(** Decimal digit character of [0 <= k <= 9]. *)
Definition digit (k : Z) : ascii := ascii_of_nat (48 + Z.to_nat k).

(** Decimal representation of a non-negative integer, no padding (what
    [strftime("%Y")] prints on Linux). *)
Fixpoint dec_aux (fuel : nat) (x : Z) (acc : string) : string :=
  match fuel with
  | O => acc
  | S f =>
      let acc' := String (digit (x mod 10)) acc in
      if x <? 10 then acc' else dec_aux f (x / 10) acc'
  end.

Definition dec (x : Z) : string := dec_aux 20 x EmptyString.

(** [strftime("%Y%m")]: the year, then the month on two digits. *)
Definition strftime_Ym (y m : Z) : string :=
  dec y ++ String (digit (m / 10)) (String (digit (m mod 10)) EmptyString).

(** [datetime.today().replace(day=1) - relativedelta(months=i)], as
    (year, month), [ano]/[mes] being today's year and month. *)
Definition mes_anterior (ano mes : Z) (i : nat) : Z * Z :=
  let idx := ano * 12 + (mes - 1) - Z.of_nat i in
  (idx / 12, idx mod 12 + 1).

(** [[(hoje - relativedelta(months=i)).strftime("%Y%m") for i in range(1, n + 1)]] *)
Definition ultimos_meses (ano mes : Z) (n : nat) : list string :=
  map (fun i => strftime_Ym (fst (mes_anterior ano mes i)) (snd (mes_anterior ano mes i)))
    (seq 1 n).

(** The URL fetched by [download_inf_diario_fi(yyyymm)]. *)
Definition url_inf_diario (yyyymm : string) : string :=
  "https://dados.cvm.gov.br/dados/FI/DOC/INF_DIARIO/DADOS/inf_diario_fi_" ++ yyyymm ++ ".zip".

(** ** Sections 3 to 5: monthly files, FI filter, type conversion *)

(** A row of a monthly CSV. [DT_COMPTC] is kept as the result of
    [pd.to_datetime(..., errors="coerce")] (date parsing is not modelled);
    the other columns are as read, [None] being NaN. *)
Record RawRow := {
  TP_FUNDO_CLASSE : option string;
  raw_CNPJ_FUNDO_CLASSE : option string;
  DT_COMPTC : option Z;
  CAPTC_DIA : option Z;
  RESG_DIA : option Z
}.

(** [df["TP_FUNDO_CLASSE"] == "FI"] (false on NaN). *)
Definition eh_FI (r : RawRow) : bool :=
  match TP_FUNDO_CLASSE r with Some t => String.eqb t "FI" | None => false end.

(** [df["CAPTC_DIA"] - df["RESG_DIA"]]: NaN when either side is NaN. *)
Definition captacao_dia (r : RawRow) : option Z :=
  match CAPTC_DIA r, RESG_DIA r with
  | Some a, Some b => Some (a - b)
  | _, _ => None
  end.

(** Loop of section 3: each month's frame filtered to FI, then
    [pd.concat(dfs)] (section 4). *)
Definition df_consolidado (meses : list (list RawRow)) : list RawRow :=
  List.concat (map (filter eh_FI) meses).

(** Section 4B: [df = df[df["TP_FUNDO_CLASSE"] == "FI"]]. *)
Definition filtro_final (df : list RawRow) : list RawRow := filter eh_FI df.

Definition registros_removidos (df : list RawRow) : nat :=
  (List.length df - List.length (filtro_final df))%nat.

Definition is_digit (c : ascii) : bool :=
  (48 <=? nat_of_ascii c)%nat && (nat_of_ascii c <=? 57)%nat.

(** [.str.replace(r"\D", "", regex=True)]: keep the decimal digits (the
    only ones of the latin-1 character set are 0-9). *)
Fixpoint so_digitos (s : string) : string :=
  match s with
  | EmptyString => EmptyString
  | String c rest => if is_digit c then String c (so_digitos rest) else so_digitos rest
  end.

(** [.astype(str).str.replace(r"\D", "", regex=True)]: NaN becomes "nan". *)
Definition normaliza_cnpj (o : option string) : string :=
  so_digitos (match o with Some t => t | None => "nan"%string end).

(** Section 5: the row handed to the aggregation. *)
Definition to_flow (r : RawRow) : FlowRecord :=
  {| CNPJ_FUNDO_CLASSE := normaliza_cnpj (raw_CNPJ_FUNDO_CLASSE r);
     Data_Comptc := DT_COMPTC r;
     Captacao_Liquida := captacao_dia r |}.

(** Sections 3 to 6 composed: [df_agg] of the downloaded months. *)
Definition etl_df_agg (meses : list (list RawRow)) : list AggRow :=
  df_agg (map to_flow (filtro_final (df_consolidado meses))).

(** ** Sections 9 and 10: fund register and left merge *)

Record CadRow := {
  CNPJ_FUNDO : option string;
  DENOM_SOCIAL : option string
}.

Definition opt_string_eqb (a b : option string) : bool :=
  match a, b with
  | Some x, Some y => String.eqb x y
  | None, None => true
  | _, _ => false
  end.

(** Two register rows are duplicates when both columns agree
    ([drop_duplicates] counts NaN equal to NaN). *)
Definition cad_eqb (a b : CadRow) : bool :=
  opt_string_eqb (CNPJ_FUNDO a) (CNPJ_FUNDO b) && opt_string_eqb (DENOM_SOCIAL a) (DENOM_SOCIAL b).

(** [drop_duplicates()]: keep the first occurrence of each row. *)
Fixpoint drop_dup_aux (seen : list CadRow) (l : list CadRow) : list CadRow :=
  match l with
  | [] => []
  | c :: rest =>
      if existsb (cad_eqb c) seen then drop_dup_aux seen rest
      else c :: drop_dup_aux (c :: seen) rest
  end.

Definition drop_duplicates (l : list CadRow) : list CadRow := drop_dup_aux [] l.

(** [df_cad[["CNPJ_FUNDO", "DENOM_SOCIAL"]].drop_duplicates()], then the
    CNPJ normalised: (normalised id, name). *)
Definition df_cad (cad : list CadRow) : list (string * option string) :=
  map (fun c => (normaliza_cnpj (CNPJ_FUNDO c), DENOM_SOCIAL c)) (drop_duplicates cad).

Record MergedRow := {
  m_win : WinRow;
  m_DENOM_SOCIAL : option string
}.

(** [df.merge(df_cad, left_on="CNPJ_FUNDO_CLASSE", right_on="CNPJ_FUNDO",
    how="left")]: each left row once per matching register row, in order,
    or once with a NaN name when nothing matches. *)
Definition merge_left (df : list WinRow) (cad : list (string * option string)) : list MergedRow :=
  flat_map (fun w =>
    match filter (fun c => String.eqb (fst c) (w_CNPJ w)) cad with
    | [] => [{| m_win := w; m_DENOM_SOCIAL := None |}]
    | ms => map (fun c => {| m_win := w; m_DENOM_SOCIAL := snd c |}) ms
    end) df.

Definition merged_key (m : MergedRow) : key := (w_CNPJ (m_win m), w_Data (m_win m)).

(** Section 15: [unicos = df.groupby([...]).size()];
    [n_unicos == n_registros]. *)
Definition verificacao_final (df : list MergedRow) : bool :=
  let unicos := group_sum (map (fun m => (merged_key m, 1)) df) in
  Nat.eqb (List.length unicos) (List.length df).

(** ** Sections 12 and 13 on the merged frame *)

(** Section 12 runs on the merged frame: [df["Data_Comptc"].max()] and the
    filter on it. *)
Definition data_maxima_m (df : list MergedRow) : option Z := data_maxima (map m_win df).

Definition df_filtrado_m (df : list MergedRow) : list MergedRow :=
  let m := data_maxima_m df in
  filter (fun r => match m with Some x => w_Data (m_win r) =? x | None => false end) df.

(** Section 13: the selected columns, [DENOM_SOCIAL] renamed [Nome_Fundo],
    and [dropna(subset=["Nome_Fundo"])]; a row is the fund name with its
    windowed row (the date formatting is not modelled). *)
Definition df_final (df : list MergedRow) : list (string * WinRow) :=
  flat_map (fun m => match m_DENOM_SOCIAL m with
                     | Some n => [(n, m_win m)]
                     | None => []
                     end) (df_filtrado_m df).

(** ** Section 15 (PDF): pages of [linhas_por_pagina] rows *)

Definition linhas_por_pagina : nat := 18.

(** [range(0, n, step)]: [ceil(n / step)] starts. *)
Definition range_step (n step : nat) : list nat :=
  map (fun k => (k * step)%nat) (seq 0 ((n + step - 1) / step)).

(** [df_pdf.iloc[i:i + linhas_por_pagina]] for each [i] of the loop. *)
Definition paginas {A} (rows : list A) : list (list A) :=
  map (fun i => firstn linhas_por_pagina (skipn i rows))
    (range_step (List.length rows) linhas_por_pagina).

(** ** Invariants *)

(** Keys strictly ascending: the shape of a [groupby] result. *)
Definition ksorted (l : list (key * Z)) : Prop :=
  StronglySorted (fun p q => key_lt (fst p) (fst q)) l.

(** Rows in non-decreasing key order: the shape of [sort_values]. *)
Definition row_le (a b : AggRow) : Prop := key_le (agg_key a) (agg_key b).

(** ** Reference sums of the spec *)

(** Sum of the valid net flows of the input rows with key [k]. *)
Definition has_key (k : key) (r : FlowRecord) : bool :=
  match Data_Comptc r with
  | Some d => key_eqb k (CNPJ_FUNDO_CLASSE r, d)
  | None => false
  end.

Definition valid_sum (k : key) (df : list FlowRecord) : Z :=
  fold_right (fun r s =>
    if has_key k r then
      match Captacao_Liquida r with Some v => v + s | None => s end
    else s) 0 df.

(** [sum_W(d)]: the flows of fund [e] at dates [t] with [d - W < t <= d]. *)
Definition spec_window (W : Z) (df : list AggRow) (e : string) (d : Z) : Z :=
  sum_by (fun x =>
    if String.eqb (a_CNPJ x) e && (d - W <? a_Data x) && (a_Data x <=? d)
    then a_Captacao x else 0) df.

(** The windowed row the spec prescribes for row [r] of [df]. *)
Definition spec_row (df : list AggRow) (r : AggRow) : WinRow :=
  win_of r (spec_window 30 df (a_CNPJ r) (a_Data r))
           (spec_window 90 df (a_CNPJ r) (a_Data r))
           (spec_window 180 df (a_CNPJ r) (a_Data r)).

(** ** Sample data *)

Definition fundo_E : string := "11222333000181"%string.

Definition ex_window : list AggRow :=
  [ {| a_CNPJ := fundo_E; a_Data := days_from_civil 2024 1 1; a_Captacao := 100 |};
    {| a_CNPJ := fundo_E; a_Data := days_from_civil 2024 1 15; a_Captacao := 50 |};
    {| a_CNPJ := fundo_E; a_Data := days_from_civil 2024 2 1; a_Captacao := -30 |} ].

Definition sums_at (d : Z) (df : list WinRow) : list (Z * Z * Z) :=
  map (fun w => (Captacao_30D w, Captacao_90D w, Captacao_180D w))
    (filter (fun w => w_Data w =? d) df).

Definition fundo_A : string := "00111222000133"%string.
Definition fundo_B : string := "44555666000177"%string.

Definition ex_snapshot : list AggRow :=
  [ {| a_CNPJ := fundo_A; a_Data := days_from_civil 2024 2 15; a_Captacao := 10 |};
    {| a_CNPJ := fundo_B; a_Data := days_from_civil 2024 2 1; a_Captacao := 7 |};
    {| a_CNPJ := fundo_A; a_Data := days_from_civil 2024 3 1; a_Captacao := 20 |};
    {| a_CNPJ := fundo_B; a_Data := days_from_civil 2024 2 20; a_Captacao := 5 |} ].

Definition ex_negative : list AggRow :=
  [ {| a_CNPJ := fundo_E; a_Data := days_from_civil 2024 1 1; a_Captacao := -10 |};
    {| a_CNPJ := fundo_E; a_Data := days_from_civil 2024 3 1; a_Captacao := 3 |} ].

(** First windowed row of [ex_window], and fund A's row of 2024-03-01 in
    the windowed [ex_snapshot]. *)
Definition ex_first : WinRow :=
  win_of {| a_CNPJ := fundo_E; a_Data := days_from_civil 2024 1 1; a_Captacao := 100 |}
    100 100 100.

Definition ex_latest_A : WinRow :=
  win_of {| a_CNPJ := fundo_A; a_Data := days_from_civil 2024 3 1; a_Captacao := 20 |}
    30 30 30.

Definition row_E (y m d v : Z) : FlowRecord :=
  {| CNPJ_FUNDO_CLASSE := fundo_E; Data_Comptc := Some (days_from_civil y m d);
     Captacao_Liquida := Some v |}.

Definition ex_flows : list FlowRecord :=
  [ row_E 2024 1 1 100;
    {| CNPJ_FUNDO_CLASSE := fundo_E; Data_Comptc := Some (days_from_civil 2024 1 1);
       Captacao_Liquida := None |};
    row_E 2024 1 1 25;
    {| CNPJ_FUNDO_CLASSE := fundo_E; Data_Comptc := Some (days_from_civil 2024 1 2);
       Captacao_Liquida := None |} ].

Definition undated : FlowRecord :=
  {| CNPJ_FUNDO_CLASSE := fundo_E; Data_Comptc := None; Captacao_Liquida := Some 9 |}.

(** Rows of two monthly CSVs: fund E on 2024-01-01 (day 19723) with its
    CNPJ formatted or not, one row of another class, one row with
    [RESG_DIA] missing. *)
Definition raw_row (t c : string) (d : Z) (a b : option Z) : RawRow :=
  {| TP_FUNDO_CLASSE := Some t; raw_CNPJ_FUNDO_CLASSE := Some c; DT_COMPTC := Some d;
     CAPTC_DIA := a; RESG_DIA := b |}.

Definition ex_meses : list (list RawRow) :=
  [[raw_row "FI" "11.222.333/0001-81" 19723 (Some 500) (Some 200);
    raw_row "FIC" "11.222.333/0001-81" 19723 (Some 999) (Some 0)];
   [raw_row "FI" "11222333000181" 19723 (Some 40) None;
    raw_row "FI" "11.222.333/0001-81" 19723 (Some 10) (Some 60)]].

Definition agg_E : AggRow := {| a_CNPJ := fundo_E; a_Data := 19723; a_Captacao := 250 |}.

(** Register rows: fund E twice (the same row), fund A; and a register
    where fund E has two names. *)
Definition cad_row (c n : string) : CadRow := {| CNPJ_FUNDO := Some c; DENOM_SOCIAL := Some n |}.

Definition ex_cad : list CadRow :=
  [cad_row "11.222.333/0001-81" "FUNDO E"; cad_row "11.222.333/0001-81" "FUNDO E";
   cad_row "00.111.222/0001-33" "FUNDO A"].

Definition ex_cad_dup : list CadRow :=
  [cad_row "11.222.333/0001-81" "FUNDO E"; cad_row "11222333000181" "FUNDO E FIM"].

Example days_epoch : days_from_civil 1970 1 1 = 0.
Proof. reflexivity. Qed.
Example days_2024 : days_from_civil 2024 1 1 = 19723.
Proof. reflexivity. Qed.
Example ex_window_sums :
  sums_at (days_from_civil 2024 2 1) (rolling ex_window) = [(20, 120, 120)].
Proof. reflexivity. Qed.

(** ** Order on keys *)

Lemma string_compare_OT (s1 s2 : string) :
  String.compare s1 s2 = OrdersEx.String_as_OT.compare s1 s2.
Proof. reflexivity. Qed.

Lemma string_compare_trans (a b c : string) :
  String.compare a b = Lt -> String.compare b c = Lt -> String.compare a c = Lt.
Proof.
  rewrite !string_compare_OT. intros H1 H2.
  exact (@RelationClasses.StrictOrder_Transitive _ _ OrdersEx.String_as_OT.lt_strorder a b c H1 H2).
Qed.

Lemma string_compare_refl (s : string) : String.compare s s = Eq.
Proof.
  induction s as [|c s IH]; simpl; [reflexivity|].
  unfold Ascii.compare. rewrite N.compare_refl. exact IH.
Qed.

Lemma key_compare_eq (k1 k2 : key) : key_compare k1 k2 = Eq <-> k1 = k2.
Proof.
  destruct k1 as [e1 d1], k2 as [e2 d2]; unfold key_compare; simpl. split.
  - destruct (String.compare e1 e2) eqn:He; try discriminate.
    intro Hd. apply String.compare_eq_iff in He. apply Z.compare_eq in Hd.
    subst; reflexivity.
  - intro H; inversion H; subst.
    rewrite string_compare_refl. apply Z.compare_refl.
Qed.

Lemma key_compare_antisym (k1 k2 : key) :
  key_compare k2 k1 = CompOpp (key_compare k1 k2).
Proof.
  destruct k1 as [e1 d1], k2 as [e2 d2]; unfold key_compare; simpl.
  rewrite (String.compare_antisym e2 e1).
  destruct (String.compare e1 e2); simpl; auto using Z.compare_antisym.
Qed.

Lemma key_compare_refl (k : key) : key_compare k k = Eq.
Proof. apply key_compare_eq; reflexivity. Qed.

Lemma key_lt_trans (a b c : key) : key_lt a b -> key_lt b c -> key_lt a c.
Proof.
  destruct a as [ea da], b as [eb db], c as [ec dc]; unfold key_lt, key_compare; simpl.
  destruct (String.compare ea eb) eqn:H1; try discriminate;
  destruct (String.compare eb ec) eqn:H2; try discriminate; intros A B.
  - apply String.compare_eq_iff in H1, H2; subst.
    rewrite string_compare_refl. rewrite Z.compare_lt_iff in *. lia.
  - apply String.compare_eq_iff in H1; subst. rewrite H2. reflexivity.
  - apply String.compare_eq_iff in H2; subst. rewrite H1. reflexivity.
  - rewrite (string_compare_trans ea eb ec H1 H2). reflexivity.
Qed.

Lemma key_lt_irrefl (k : key) : ~ key_lt k k.
Proof. unfold key_lt. rewrite key_compare_refl. discriminate. Qed.

Lemma key_gt_lt (a b : key) : key_compare a b = Gt -> key_lt b a.
Proof. unfold key_lt; intro H. rewrite key_compare_antisym, H. reflexivity. Qed.

Lemma key_le_lt_trans (a b c : key) : key_le a b -> key_lt b c -> key_lt a c.
Proof.
  unfold key_le. intros H1 H2.
  destruct (key_compare a b) eqn:E; [| |contradiction].
  - apply key_compare_eq in E; subst; exact H2.
  - exact (key_lt_trans a b c E H2).
Qed.

Lemma key_le_trans (a b c : key) : key_le a b -> key_le b c -> key_le a c.
Proof.
  unfold key_le. intros H1 H2.
  destruct (key_compare b c) eqn:E; [| |contradiction].
  - apply key_compare_eq in E; subst; exact H1.
  - pose proof (key_le_lt_trans a b c H1 E) as H. unfold key_lt in H. rewrite H; discriminate.
Qed.

Lemma key_eqb_eq (k1 k2 : key) : key_eqb k1 k2 = true <-> k1 = k2.
Proof.
  unfold key_eqb. rewrite <- key_compare_eq.
  destruct (key_compare k1 k2); split; congruence.
Qed.

Lemma key_eqb_refl (k : key) : key_eqb k k = true.
Proof. apply key_eqb_eq; reflexivity. Qed.

Lemma key_lt_neq (a b : key) : key_lt a b -> key_eqb a b = false.
Proof. unfold key_lt, key_eqb; intro H; rewrite H; reflexivity. Qed.

Lemma key_lt_same_fund (e : string) (d1 d2 : Z) : key_lt (e, d1) (e, d2) -> d1 < d2.
Proof.
  unfold key_lt, key_compare; simpl. rewrite string_compare_refl.
  apply Z.compare_lt_iff.
Qed.

(** ** The aggregation accumulator *)

Lemma add_key_Forall (Q : key -> Prop) (k : key) (v : Z) (acc : list (key * Z)) :
  Q k -> Forall (fun p => Q (fst p)) acc -> Forall (fun p => Q (fst p)) (add_key k v acc).
Proof.
  intros Hk; induction acc as [|[k' v'] rest IH]; simpl; intros Hacc.
  - constructor; auto.
  - inversion Hacc; subst.
    destruct (key_compare k k'); constructor; auto.
Qed.

Lemma add_key_sorted (k : key) (v : Z) (acc : list (key * Z)) :
  ksorted acc -> ksorted (add_key k v acc).
Proof.
  unfold ksorted; induction acc as [|[k' v'] rest IH]; simpl; intros Hs.
  - repeat constructor.
  - apply StronglySorted_inv in Hs as [Hrest Hall].
    destruct (key_compare k k') eqn:E.
    + constructor; assumption.
    + constructor; [constructor; assumption|].
      constructor; [exact E|].
      eapply Forall_impl; [|exact Hall]. intros [a b] H. exact (key_lt_trans _ _ _ E H).
    + constructor; [apply IH; assumption|].
      apply (add_key_Forall (fun q => key_lt k' q)); [apply key_gt_lt; exact E|exact Hall].
Qed.

Lemma lookup_none (k : key) (acc : list (key * Z)) :
  Forall (fun p => key_lt k (fst p)) acc -> assoc_lookup k acc = None.
Proof.
  induction acc as [|[k' v'] rest IH]; simpl; intros H; [reflexivity|].
  inversion H; subst. rewrite key_lt_neq by assumption. auto.
Qed.

Lemma lookup_add (k k' : key) (v : Z) (acc : list (key * Z)) :
  ksorted acc ->
  assoc_lookup k (add_key k' v acc) =
  if key_eqb k k' then Some (match assoc_lookup k acc with Some x => x | None => 0 end + v)
  else assoc_lookup k acc.
Proof.
  unfold ksorted; induction acc as [|[k0 v0] rest IH]; intros Hs; simpl.
  - destruct (key_eqb k k'); reflexivity.
  - apply StronglySorted_inv in Hs as [Hrest Hall].
    destruct (key_compare k' k0) eqn:E; simpl.
    + apply key_compare_eq in E; subst k0.
      destruct (key_eqb k k'); reflexivity.
    + destruct (key_eqb k k') eqn:Ek; [|reflexivity].
      apply key_eqb_eq in Ek; subst k.
      rewrite (key_lt_neq _ _ E), lookup_none; [f_equal; lia|].
      eapply Forall_impl; [|exact Hall]. intros [a b] H. exact (key_lt_trans _ _ _ E H).
    + destruct (key_eqb k k0) eqn:E0.
      * apply key_eqb_eq in E0; subst k0.
        destruct (key_eqb k k') eqn:Ek; [|reflexivity].
        apply key_eqb_eq in Ek; subst k'. rewrite key_compare_refl in E. discriminate.
      * apply IH; assumption.
Qed.

Lemma sum_key_absent (k : key) (l : list (key * Z)) :
  existsb (fun kv => key_eqb k (fst kv)) l = false -> sum_key k l = 0.
Proof.
  induction l as [|[k' v] l IH]; simpl; [reflexivity|].
  intros H; apply orb_false_iff in H as [H1 H2]. rewrite H1, IH by exact H2. reflexivity.
Qed.

Lemma lookup_fold (k : key) (l acc : list (key * Z)) :
  ksorted acc ->
  assoc_lookup k (fold_left (fun acc kv => add_key (fst kv) (snd kv) acc) l acc) =
  if existsb (fun kv => key_eqb k (fst kv)) l
  then Some (match assoc_lookup k acc with Some x => x | None => 0 end + sum_key k l)
  else assoc_lookup k acc.
Proof.
  revert acc; induction l as [|[k' v] l IH]; intros acc Hs; simpl.
  - reflexivity.
  - rewrite IH by (apply add_key_sorted; exact Hs).
    rewrite lookup_add by exact Hs.
    destruct (key_eqb k k') eqn:Ek; simpl.
    + destruct (existsb _ l) eqn:Ex.
      * f_equal. lia.
      * rewrite sum_key_absent by exact Ex. f_equal. lia.
    + destruct (existsb _ l); [f_equal; lia|reflexivity].
Qed.

Lemma group_sum_sorted (l : list (key * Z)) : ksorted (group_sum l).
Proof.
  unfold group_sum. assert (H : ksorted []) by constructor.
  revert H. generalize (@nil (key * Z)). induction l as [|kv l IH]; simpl; intros acc H.
  - exact H.
  - apply IH, add_key_sorted, H.
Qed.

Lemma group_sum_lookup (k : key) (l : list (key * Z)) :
  assoc_lookup k (group_sum l) =
  if existsb (fun kv => key_eqb k (fst kv)) l then Some (sum_key k l) else None.
Proof.
  unfold group_sum. rewrite lookup_fold by constructor. reflexivity.
Qed.

Lemma ksorted_NoDup (l : list (key * Z)) : ksorted l -> NoDup (map fst l).
Proof.
  unfold ksorted; induction l as [|[k v] l IH]; simpl; intros Hs; [constructor|].
  apply StronglySorted_inv in Hs as [Hs Hall]. constructor; [|auto].
  intros Hin. apply in_map_iff in Hin as [[k' v'] [Heq Hin]]; simpl in Heq; subst k'.
  rewrite Forall_forall in Hall. apply (key_lt_irrefl k (Hall _ Hin)).
Qed.

Lemma ksorted_lookup_In (k : key) (v : Z) (l : list (key * Z)) :
  ksorted l -> In (k, v) l -> assoc_lookup k l = Some v.
Proof.
  unfold ksorted; induction l as [|[k' v'] l IH]; simpl; intros Hs Hin; [contradiction|].
  apply StronglySorted_inv in Hs as [Hs Hall].
  destruct Hin as [[= <- <-]|Hin].
  - rewrite key_eqb_refl. reflexivity.
  - rewrite Forall_forall in Hall. specialize (Hall _ Hin); simpl in Hall.
    destruct (key_eqb k k') eqn:E.
    + apply key_eqb_eq in E; subst k'. destruct (key_lt_irrefl _ Hall).
    + auto.
Qed.

Lemma lookup_In (k : key) (v : Z) (l : list (key * Z)) :
  assoc_lookup k l = Some v -> In (k, v) l.
Proof.
  induction l as [|[k' v'] l IH]; simpl; [discriminate|].
  destruct (key_eqb k k') eqn:E; intros H.
  - apply key_eqb_eq in E; injection H as <-; subst; left; reflexivity.
  - right; auto.
Qed.

(** Adding a key greater than all keys of the table appends it. *)
Lemma add_key_last (k : key) (v : Z) (acc : list (key * Z)) :
  Forall (fun p => key_lt (fst p) k) acc -> add_key k v acc = acc ++ [(k, v)].
Proof.
  induction acc as [|[k' v'] acc IH]; simpl; intros H; [reflexivity|].
  inversion H; subst. simpl in *.
  rewrite key_compare_antisym. unfold key_lt in *. rewrite H2. simpl. f_equal. auto.
Qed.

(** Aggregating a table whose keys are already distinct and ascending
    returns it unchanged. *)
Lemma fold_add_sorted (l acc : list (key * Z)) :
  ksorted (acc ++ l) ->
  fold_left (fun acc kv => add_key (fst kv) (snd kv) acc) l acc = acc ++ l.
Proof.
  revert acc; induction l as [|[k v] l IH]; intros acc Hs; simpl.
  - rewrite app_nil_r; reflexivity.
  - assert (Hlast : Forall (fun p => key_lt (fst p) k) acc).
    { clear IH. unfold ksorted in Hs. induction acc as [|p acc IHa]; simpl in *; [constructor|].
      apply StronglySorted_inv in Hs as [Hs Hall]. constructor.
      - rewrite Forall_forall in Hall. apply (Hall (k, v)). apply in_or_app; right; left; reflexivity.
      - auto. }
    rewrite add_key_last by exact Hlast. rewrite IH.
    + rewrite <- app_assoc; reflexivity.
    + rewrite <- app_assoc; exact Hs.
Qed.

Lemma group_sum_sorted_id (l : list (key * Z)) : ksorted l -> group_sum l = l.
Proof. intros H. unfold group_sum. apply (fold_add_sorted l []). exact H. Qed.

(** ** Aggregated rows *)

Lemma agg_key_to_row (kv : key * Z) : agg_key (to_row kv) = fst kv.
Proof. destruct kv as [[e d] v]; reflexivity. Qed.

Lemma map_agg_key_to_row (l : list (key * Z)) : map agg_key (map to_row l) = map fst l.
Proof. rewrite map_map. apply map_ext, agg_key_to_row. Qed.

Lemma group_rows_exists (k : key) (df : list FlowRecord) :
  existsb (fun kv => key_eqb k (fst kv)) (group_rows df) = existsb (has_key k) df.
Proof.
  induction df as [|r df IH]; simpl; [reflexivity|].
  unfold has_key. destruct (Data_Comptc r); simpl; rewrite IH; reflexivity.
Qed.

Lemma group_rows_sum (k : key) (df : list FlowRecord) :
  sum_key k (group_rows df) = valid_sum k df.
Proof.
  induction df as [|r df IH]; simpl; [reflexivity|].
  unfold has_key, flow_value. fold (group_rows df).
  destruct (Data_Comptc r) as [d|]; simpl; rewrite IH; [|reflexivity].
  destruct (key_eqb k (CNPJ_FUNDO_CLASSE r, d)), (Captacao_Liquida r); reflexivity.
Qed.

Lemma valid_sum_all_invalid (k : key) (df : list FlowRecord) :
  (forall x, In x df -> has_key k x = true -> Captacao_Liquida x = None) ->
  valid_sum k df = 0.
Proof.
  induction df as [|r df IH]; simpl; intros H; [reflexivity|].
  rewrite IH by (intros x Hx; apply H; right; exact Hx).
  destruct (has_key k r) eqn:E; [|reflexivity].
  rewrite (H r (or_introl eq_refl) E). reflexivity.
Qed.

Lemma group_rows_embed (l : list (key * Z)) :
  group_rows (map embed (map to_row l)) = l.
Proof.
  induction l as [|[[e d] v] l IH]; [reflexivity|].
  unfold group_rows in *. simpl. rewrite IH. reflexivity.
Qed.

Lemma ksorted_map_snd (f : key * Z -> Z) (l : list (key * Z)) :
  ksorted l -> ksorted (map (fun kv => (fst kv, f kv)) l).
Proof.
  unfold ksorted; induction l as [|kv l IH]; simpl; intros Hs; [constructor|].
  apply StronglySorted_inv in Hs as [Hs Hall]. constructor; [auto|].
  apply Forall_map. eapply Forall_impl; [|exact Hall]. intros a H; exact H.
Qed.

(** ** Rolling windows: shape of the result *)

Lemma rolling_aux_In (hist s : list AggRow) (w : WinRow) :
  In w (rolling_aux hist s) ->
  exists pre r post, s = pre ++ r :: post /\
    let h := r :: rev pre ++ hist in
    w = win_of r (window_sum 30 r h) (window_sum 90 r h) (window_sum 180 r h).
Proof.
  revert hist; induction s as [|x s IH]; simpl; intros hist Hin; [contradiction|].
  destruct Hin as [<-|Hin].
  - exists [], x, s. split; reflexivity.
  - destruct (IH _ Hin) as (pre & r & post & -> & Hw).
    exists (x :: pre), r, post. split; [reflexivity|].
    simpl. rewrite <- app_assoc. exact Hw.
Qed.

Lemma rolling_aux_complete (hist pre post : list AggRow) (r : AggRow) :
  let h := r :: rev pre ++ hist in
  In (win_of r (window_sum 30 r h) (window_sum 90 r h) (window_sum 180 r h))
     (rolling_aux hist (pre ++ r :: post)).
Proof.
  revert hist; induction pre as [|x pre IH]; simpl; intros hist.
  - left; reflexivity.
  - right. specialize (IH (x :: hist)). simpl in IH. rewrite <- app_assoc. exact IH.
Qed.

Lemma insert_row_perm (r : AggRow) (l : list AggRow) : Permutation (insert_row r l) (r :: l).
Proof.
  induction l as [|x l IH]; simpl; [reflexivity|].
  destruct (key_compare (agg_key r) (agg_key x)); try reflexivity.
  rewrite IH. apply perm_swap.
Qed.

Lemma sort_values_perm (df : list AggRow) : Permutation (sort_values df) df.
Proof.
  induction df as [|r df IH]; simpl; [reflexivity|].
  rewrite insert_row_perm. apply perm_skip, IH.
Qed.

Lemma insert_row_Forall (P : AggRow -> Prop) (r : AggRow) (l : list AggRow) :
  P r -> Forall P l -> Forall P (insert_row r l).
Proof.
  intros Hr; induction l as [|x l IH]; simpl; intros Hl; [constructor; auto|].
  inversion Hl; subst.
  destruct (key_compare (agg_key r) (agg_key x)); constructor; auto.
Qed.

Lemma insert_row_sorted (r : AggRow) (l : list AggRow) :
  StronglySorted row_le l -> StronglySorted row_le (insert_row r l).
Proof.
  induction l as [|x l IH]; simpl; intros Hs; [repeat constructor|].
  apply StronglySorted_inv in Hs as [Hs Hall].
  destruct (key_compare (agg_key r) (agg_key x)) eqn:E.
  - constructor; [constructor; assumption|].
    constructor; [unfold row_le, key_le; rewrite E; discriminate|].
    eapply Forall_impl; [|exact Hall]. intros y Hy.
    apply (key_le_trans _ (agg_key x)); [unfold key_le; rewrite E; discriminate|exact Hy].
  - constructor; [constructor; assumption|].
    constructor; [unfold row_le, key_le; rewrite E; discriminate|].
    eapply Forall_impl; [|exact Hall]. intros y Hy.
    apply (key_le_trans _ (agg_key x)); [unfold key_le; rewrite E; discriminate|exact Hy].
  - constructor; [auto|].
    apply insert_row_Forall; [|exact Hall].
    pose proof (key_gt_lt _ _ E) as H. unfold row_le, key_le, key_lt in *. rewrite H; discriminate.
Qed.

Lemma sort_values_sorted (df : list AggRow) : StronglySorted row_le (sort_values df).
Proof.
  induction df as [|r df IH]; simpl; [constructor|]. apply insert_row_sorted, IH.
Qed.

(** ** Sums *)

Lemma sum_by_app {A} (f : A -> Z) (l1 l2 : list A) :
  sum_by f (l1 ++ l2) = sum_by f l1 + sum_by f l2.
Proof. induction l1 as [|x l1 IH]; simpl; [reflexivity|]. rewrite IH; lia. Qed.

Lemma sum_by_perm {A} (f : A -> Z) (l1 l2 : list A) :
  Permutation l1 l2 -> sum_by f l1 = sum_by f l2.
Proof. induction 1; simpl; lia. Qed.

Lemma sum_by_ext_in {A} (f g : A -> Z) (l : list A) :
  (forall x, In x l -> f x = g x) -> sum_by f l = sum_by g l.
Proof.
  induction l as [|x l IH]; simpl; intros H; [reflexivity|].
  rewrite (H x (or_introl eq_refl)), IH by (intros y Hy; apply H; right; exact Hy). reflexivity.
Qed.

Lemma sum_by_zero {A} (f : A -> Z) (l : list A) :
  (forall x, In x l -> f x = 0) -> sum_by f l = 0.
Proof.
  induction l as [|x l IH]; simpl; intros H; [reflexivity|].
  rewrite (H x (or_introl eq_refl)), IH by (intros y Hy; apply H; right; exact Hy). reflexivity.
Qed.

Lemma sum_by_le {A} (f g : A -> Z) (l : list A) :
  (forall x, In x l -> f x <= g x) -> sum_by f l <= sum_by g l.
Proof.
  induction l as [|x l IH]; simpl; intros H; [lia|].
  pose proof (H x (or_introl eq_refl)). pose proof (IH (fun y Hy => H y (or_intror Hy))). lia.
Qed.

(** Sum over rows with distinct keys of a function that vanishes away from
    the key of one of them. *)
Lemma sum_by_single (f : AggRow -> Z) (l : list AggRow) (r : AggRow) :
  NoDup (map agg_key l) -> In r l ->
  (forall x, In x l -> agg_key x <> agg_key r -> f x = 0) -> sum_by f l = f r.
Proof.
  induction l as [|x l IH]; simpl; intros Hnd Hin H; [contradiction|].
  inversion Hnd as [|? ? Hx Hnd']; subst.
  destruct Hin as [<-|Hin].
  - rewrite sum_by_zero; [lia|]. intros y Hy. apply H; [right; exact Hy|].
    intros Heq. apply Hx. rewrite <- Heq. apply in_map, Hy.
  - rewrite (H x (or_introl eq_refl)).
    + rewrite IH; auto.
    + intros Heq. apply Hx. rewrite Heq. apply in_map, Hin.
Qed.

(** ** Rolling windows: the window of a row in the sorted frame *)

Lemma StronglySorted_app_rel {A} (R : A -> A -> Prop) (l1 l2 : list A) :
  StronglySorted R (l1 ++ l2) -> forall a b, In a l1 -> In b l2 -> R a b.
Proof.
  induction l1 as [|x l1 IH]; simpl; intros Hs a b Ha Hb; [contradiction|].
  apply StronglySorted_inv in Hs as [Hs Hall].
  destruct Ha as [<-|Ha].
  - rewrite Forall_forall in Hall. apply Hall, in_or_app; right; exact Hb.
  - eauto.
Qed.

Lemma key_le_neq_lt (a b : key) : key_le a b -> a <> b -> key_lt a b.
Proof.
  unfold key_le, key_lt; intros H1 H2.
  destruct (key_compare a b) eqn:E; [apply key_compare_eq in E; contradiction|reflexivity|contradiction].
Qed.

Lemma NoDup_keys_other (pre post : list AggRow) (r x : AggRow) :
  NoDup (map agg_key (pre ++ r :: post)) -> In x pre \/ In x post -> agg_key x <> agg_key r.
Proof.
  rewrite map_app; simpl. intros Hnd Hx Heq.
  apply NoDup_remove_2 in Hnd. apply Hnd. rewrite <- map_app, <- Heq.
  apply in_map, in_or_app. exact Hx.
Qed.

Lemma window_sum_prefix (W : Z) (pre post : list AggRow) (r : AggRow) :
  0 < W ->
  StronglySorted row_le (pre ++ r :: post) ->
  NoDup (map agg_key (pre ++ r :: post)) ->
  window_sum W r (r :: rev pre ++ []) = spec_window W (pre ++ r :: post) (a_CNPJ r) (a_Data r).
Proof.
  intros HW Hs Hnd. unfold window_sum, spec_window.
  rewrite app_nil_r, sum_by_app. simpl sum_by at 1 3.
  rewrite <- (sum_by_perm _ _ _ (Permutation_rev pre)).
  unfold in_window. rewrite String.eqb_refl.
  replace (a_Data r - W <? a_Data r) with true by (symmetry; apply Z.ltb_lt; lia).
  rewrite Z.leb_refl. simpl.
  rewrite (sum_by_zero _ post).
  2:{ intros x Hx.
      assert (Hlt : key_lt (agg_key r) (agg_key x)).
      { apply key_le_neq_lt.
        - change (row_le r x).
          apply (StronglySorted_app_rel _ (pre ++ [r]) post); [rewrite <- app_assoc; exact Hs| |exact Hx].
          apply in_or_app; right; left; reflexivity.
        - intro Heq. apply (NoDup_keys_other pre post r x Hnd (or_intror Hx)). auto. }
      destruct (String.eqb (a_CNPJ x) (a_CNPJ r)) eqn:E; [|reflexivity].
      apply String.eqb_eq in E. unfold agg_key in Hlt. rewrite E in Hlt.
      apply key_lt_same_fund in Hlt.
      replace (a_Data x <=? a_Data r) with false by (symmetry; apply Z.leb_gt; lia).
      rewrite andb_false_r. reflexivity. }
  rewrite (sum_by_ext_in _ (fun x => if String.eqb (a_CNPJ x) (a_CNPJ r) &&
      (a_Data r - W <? a_Data x) && (a_Data x <=? a_Data r) then a_Captacao x else 0) pre).
  { lia. }
  intros x Hx.
  assert (Hlt : key_lt (agg_key x) (agg_key r)).
  { apply key_le_neq_lt.
    - change (row_le x r).
      apply (StronglySorted_app_rel _ pre (r :: post)); [exact Hs|exact Hx|left; reflexivity].
    - apply (NoDup_keys_other pre post r x Hnd (or_introl Hx)). }
  destruct (String.eqb (a_CNPJ x) (a_CNPJ r)) eqn:E; [|reflexivity].
  apply String.eqb_eq in E. unfold agg_key in Hlt. rewrite E in Hlt.
  apply key_lt_same_fund in Hlt.
  replace (a_Data x <=? a_Data r) with true by (symmetry; apply Z.leb_le; lia).
  rewrite andb_true_r. reflexivity.
Qed.

Lemma spec_window_perm (W : Z) (df df' : list AggRow) (e : string) (d : Z) :
  Permutation df df' -> spec_window W df e d = spec_window W df' e d.
Proof. intros H. unfold spec_window. apply sum_by_perm, H. Qed.

Lemma rolling_spec (df : list AggRow) :
  NoDup (map agg_key df) ->
  (forall w, In w (rolling df) -> exists r, In r df /\ w = spec_row df r) /\
  (forall r, In r df -> In (spec_row df r) (rolling df)).
Proof.
  intros Hdf. unfold rolling.
  pose proof (sort_values_perm df) as Hp.
  pose proof (sort_values_sorted df) as Hs.
  assert (Hnd : NoDup (map agg_key (sort_values df))).
  { eapply Permutation_NoDup; [|exact Hdf]. apply Permutation_map. symmetry; exact Hp. }
  assert (Hrow : forall pre r post, sort_values df = pre ++ r :: post ->
    (let h := r :: rev pre ++ [] in
     win_of r (window_sum 30 r h) (window_sum 90 r h) (window_sum 180 r h)) = spec_row df r).
  { intros pre r post Heq. cbv zeta. unfold spec_row.
    rewrite Heq in Hs, Hnd.
    rewrite !(window_sum_prefix _ pre post r) by (lia || assumption).
    rewrite <- Heq, !(spec_window_perm _ _ _ _ _ Hp). reflexivity. }
  split.
  - intros w Hw.
    destruct (rolling_aux_In _ _ _ Hw) as (pre & r & post & Heq & ->).
    exists r. split.
    + apply (Permutation_in _ Hp). rewrite Heq. apply in_or_app; right; left; reflexivity.
    + apply (Hrow pre r post Heq).
  - intros r Hr.
    apply (Permutation_in _ (Permutation_sym Hp)) in Hr.
    destruct (in_split _ _ Hr) as (pre & post & Heq).
    rewrite <- (Hrow pre r post Heq), Heq. apply rolling_aux_complete.
Qed.

Lemma window_sum_mono (W1 W2 : Z) (r : AggRow) (h : list AggRow) :
  W1 <= W2 ->
  (forall x, In x h -> a_CNPJ x = a_CNPJ r -> 0 <= a_Captacao x) ->
  window_sum W1 r h <= window_sum W2 r h.
Proof.
  intros HW Hnn. unfold window_sum. apply sum_by_le. intros x Hx. unfold in_window.
  destruct (String.eqb (a_CNPJ x) (a_CNPJ r)) eqn:E; simpl; [|lia].
  apply String.eqb_eq in E. specialize (Hnn x Hx E).
  destruct (a_Data r - W1 <? a_Data x) eqn:E1, (a_Data r - W2 <? a_Data x) eqn:E2;
    rewrite ?Z.ltb_lt, ?Z.ltb_ge in *; lia.
Qed.

(** ** Snapshot *)

Lemma fold_max_spec (df : list WinRow) (o : option Z) :
  match fold_left (fun m r =>
          match m with
          | None => Some (w_Data r)
          | Some x => Some (Z.max x (w_Data r))
          end) df o with
  | None => o = None /\ df = []
  | Some m => (o = Some m \/ In m (map w_Data df)) /\
              (forall x, o = Some x -> x <= m) /\
              (forall r, In r df -> w_Data r <= m)
  end.
Proof.
  revert o; induction df as [|r df IH]; intros o; simpl.
  - destruct o as [m|]; [|split; reflexivity].
    split; [left; reflexivity|]. split; [intros x [= ->]; lia|intros _ []].
  - assert (Hstep : match o with
                     | None => Some (w_Data r)
                     | Some x => Some (Z.max x (w_Data r))
                     end = Some match o with None => w_Data r | Some x => Z.max x (w_Data r) end)
      by (destruct o; reflexivity).
    rewrite Hstep.
    specialize (IH (Some match o with None => w_Data r | Some x => Z.max x (w_Data r) end)).
    destruct (fold_left _ df _) as [m|]; [|destruct IH; discriminate].
    destruct IH as (Hin & Hge & Hall).
    assert (Hr : match o with None => w_Data r | Some x => Z.max x (w_Data r) end <= m)
      by (apply Hge; reflexivity).
    split; [|split].
    + destruct Hin as [[= <-]|Hin]; [|right; right; exact Hin].
      destruct o as [x|]; [|right; left; reflexivity].
      destruct (Z.max_spec x (w_Data r)) as [[_ ->]|[_ ->]]; [right; left; reflexivity|left; reflexivity].
    + intros x ->. lia.
    + intros r' [<-|Hr']; [destruct o; lia|auto].
Qed.

Lemma data_maxima_spec (df : list WinRow) :
  match data_maxima df with
  | None => df = []
  | Some m => In m (map w_Data df) /\ (forall r, In r df -> w_Data r <= m)
  end.
Proof.
  pose proof (fold_max_spec df None) as H. unfold data_maxima.
  destruct (fold_left _ df None) as [m|].
  - destruct H as ([H|H] & _ & H2); [discriminate|]. split; assumption.
  - apply H.
Qed.

(** * Claims *)

(** C2. No two rows of [df_agg] share a (fund, date) key. *)
Theorem df_agg_keys_unique (df : list FlowRecord) :
  NoDup (map agg_key (df_agg df)).
Proof.
  unfold df_agg. rewrite map_agg_key_to_row. apply ksorted_NoDup, group_sum_sorted.
Qed.

(** C3. For every key present in the input, [df_agg] has a row with that
    key, and every row with that key carries the sum of the valid net flows
    of the input rows with that key (an invalid flow adds 0); when all of
    them are invalid there is still a row with that key and net flow 0. *)
Theorem df_agg_conservation (df : list FlowRecord) (k : key) :
  existsb (has_key k) df = true ->
  (exists r, In r (df_agg df) /\ agg_key r = k /\ a_Captacao r = valid_sum k df) /\
  (forall r, In r (df_agg df) -> agg_key r = k -> a_Captacao r = valid_sum k df) /\
  ((forall x, In x df -> has_key k x = true -> Captacao_Liquida x = None) ->
   exists r, In r (df_agg df) /\ agg_key r = k /\ a_Captacao r = 0).
Proof.
  intros Hk.
  pose proof (group_sum_lookup k (group_rows df)) as Hl.
  rewrite group_rows_exists, Hk, group_rows_sum in Hl.
  assert (Hex : exists r, In r (df_agg df) /\ agg_key r = k /\ a_Captacao r = valid_sum k df).
  { exists (to_row (k, valid_sum k df)). split; [|split].
    - apply in_map, lookup_In, Hl.
    - apply agg_key_to_row.
    - reflexivity. }
  split; [exact Hex|split].
  - intros r Hr Hkey. unfold df_agg in Hr.
    apply in_map_iff in Hr as [[k' v] [<- Hin]].
    rewrite agg_key_to_row in Hkey; simpl in Hkey; subst k'.
    rewrite (ksorted_lookup_In _ _ _ (group_sum_sorted _) Hin) in Hl.
    injection Hl as ->. reflexivity.
  - intros Hinv. rewrite (valid_sum_all_invalid k df Hinv) in Hex. exact Hex.
Qed.

(** C5. Aggregating the output of the aggregation again returns it
    unchanged. *)
Theorem df_agg_idempotent (df : list FlowRecord) :
  df_agg (map embed (df_agg df)) = df_agg df.
Proof.
  unfold df_agg. rewrite group_rows_embed.
  rewrite group_sum_sorted_id by apply group_sum_sorted. reflexivity.
Qed.

(** C6. On the output of the aggregation the duplicate check counts zero
    duplicated keys and the re-aggregation branch leaves the data as is. *)
Theorem df_agg_no_duplicates_detected (df : list FlowRecord) :
  n_duplicados (df_agg df) = 0%nat /\ validate (df_agg df) = df_agg df.
Proof.
  assert (H : n_duplicados (df_agg df) = 0%nat).
  { unfold n_duplicados, duplicados, df_agg.
    rewrite map_map, (map_ext _ (fun kv => (fst kv, 1))) by (intros kv; rewrite agg_key_to_row; reflexivity).
    rewrite group_sum_sorted_id by (apply ksorted_map_snd, group_sum_sorted).
    induction (group_sum (group_rows df)); simpl; auto. }
  split; [exact H|]. unfold validate. rewrite H. reflexivity.
Qed.

(** C7. A row whose date is missing or unparseable (NaT) is dropped by the
    aggregation without failing: the result is the one without that row. *)
Theorem df_agg_drops_undated (df1 df2 : list FlowRecord) (r : FlowRecord) :
  Data_Comptc r = None -> df_agg (df1 ++ r :: df2) = df_agg (df1 ++ df2).
Proof.
  intros Hr. unfold df_agg, group_rows. rewrite !flat_map_app. simpl. rewrite Hr. reflexivity.
Qed.

(** C8. On empty input the aggregation, the rolling windows and the
    snapshot each return an empty collection. *)
Theorem empty_input_empty_output :
  df_agg [] = [] /\ rolling [] = [] /\ data_maxima [] = None /\ df_filtrado [] = [].
Proof. repeat split. Qed.

(** C1. For an aggregated collection (one row per fund and date), every
    windowed row carries, for W = 30, 90 and 180, the sum of its fund's net
    flows at the dates t with d - W < t <= d (a right-closed, left-open
    calendar window), and every aggregated row gets such a windowed row.
    In particular, for the rows (2024-01-01, 100), (2024-01-15, 50),
    (2024-02-01, -30), the sums at 2024-02-01 are 20, 120 and 120. *)
Theorem rolling_window_right_closed (df : list AggRow) :
  NoDup (map agg_key df) ->
  (forall w, In w (rolling df) -> exists r, In r df /\ w = spec_row df r) /\
  (forall r, In r df -> In (spec_row df r) (rolling df)) /\
  sums_at (days_from_civil 2024 2 1) (rolling ex_window) = [(20, 120, 120)].
Proof.
  intros Hdf. destruct (rolling_spec df Hdf) as [H1 H2].
  split; [exact H1|split; [exact H2|reflexivity]].
Qed.

(** C4. The snapshot keeps exactly the rows whose date is the greatest date
    of the whole collection, so a fund whose latest row is older than some
    row of the collection is absent; with fund A up to 2024-03-01 and fund B
    up to 2024-02-20 only A's row of 2024-03-01 remains. *)
Theorem snapshot_global_max (df : list WinRow) :
  df_filtrado df = filter (fun r => forallb (fun r' => w_Data r' <=? w_Data r) df) df /\
  (forall e, (exists r, In r df /\ forall r', In r' df -> w_CNPJ r' = e -> w_Data r' < w_Data r) ->
   forall w, In w (df_filtrado df) -> w_CNPJ w <> e) /\
  map (fun w => (w_CNPJ w, w_Data w)) (df_filtrado (rolling ex_snapshot)) =
    [(fundo_A, days_from_civil 2024 3 1)].
Proof.
  assert (Heq : df_filtrado df = filter (fun r => forallb (fun r' => w_Data r' <=? w_Data r) df) df).
  { unfold df_filtrado. pose proof (data_maxima_spec df) as Hm.
    destruct (data_maxima df) as [m|]; [|subst df; reflexivity].
    destruct Hm as [Hin Hall]. apply filter_ext_in. intros r Hr.
    destruct (Z.eqb_spec (w_Data r) m) as [->|Hne].
    - symmetry. apply forallb_forall. intros r' Hr'. apply Z.leb_le, Hall, Hr'.
    - symmetry. apply not_true_iff_false. intros Hf. rewrite forallb_forall in Hf.
      apply in_map_iff in Hin as [r0 [<- Hr0]].
      specialize (Hf r0 Hr0). apply Z.leb_le in Hf. specialize (Hall r Hr). lia. }
  split; [exact Heq|split; [|reflexivity]].
  intros e [r [Hr Hlt]] w Hw He. rewrite Heq in Hw.
  apply filter_In in Hw as [Hw Hmax]. rewrite forallb_forall in Hmax.
  specialize (Hmax r Hr). apply Z.leb_le in Hmax. specialize (Hlt w Hw He). lia.
Qed.

(** C9. The first row of a fund's series (no row of that fund at an earlier
    date) has its three window sums equal to its own net flow. *)
Theorem first_row_windows_own_flow (df : list AggRow) (w : WinRow) :
  NoDup (map agg_key df) -> In w (rolling df) ->
  (forall r, In r df -> a_CNPJ r = w_CNPJ w -> w_Data w <= a_Data r) ->
  Captacao_30D w = w_Captacao w /\ Captacao_90D w = w_Captacao w /\
  Captacao_180D w = w_Captacao w.
Proof.
  intros Hdf Hw Hfirst.
  destruct (proj1 (rolling_spec df Hdf) w Hw) as [r [Hr ->]].
  unfold spec_row in *; simpl in *.
  assert (Hown : forall W, 0 < W -> spec_window W df (a_CNPJ r) (a_Data r) = a_Captacao r).
  { intros W HW. unfold spec_window.
    rewrite (sum_by_single _ df r Hdf Hr).
    - rewrite String.eqb_refl, Z.leb_refl.
      replace (a_Data r - W <? a_Data r) with true by (symmetry; apply Z.ltb_lt; lia).
      reflexivity.
    - intros x Hx Hne.
      destruct (String.eqb (a_CNPJ x) (a_CNPJ r)) eqn:E; [|reflexivity].
      apply String.eqb_eq in E. specialize (Hfirst x Hx E).
      destruct (a_Data x <=? a_Data r) eqn:E2; [|rewrite andb_false_r; reflexivity].
      apply Z.leb_le in E2. exfalso. apply Hne. unfold agg_key. rewrite E. f_equal. lia. }
  rewrite !Hown by lia. repeat split.
Qed.

(** C10. When all net flows of a fund are non-negative, each of its windowed
    rows has 30-day sum <= 90-day sum <= 180-day sum; with a negative flow
    the order can fail (here the 90-day sum is below the 30-day sum). *)
Theorem windows_nested_nonneg (df : list AggRow) (e : string) (w : WinRow) :
  (forall r, In r df -> a_CNPJ r = e -> 0 <= a_Captacao r) ->
  In w (rolling df) -> w_CNPJ w = e ->
  (Captacao_30D w <= Captacao_90D w <= Captacao_180D w) /\
  sums_at (days_from_civil 2024 3 1) (rolling ex_negative) = [(3, -7, -7)].
Proof.
  intros Hnn Hw He. split; [|reflexivity].
  destruct (rolling_aux_In _ _ _ Hw) as (pre & r & post & Heq & ->).
  cbv zeta in *. cbn [win_of w_CNPJ Captacao_30D Captacao_90D Captacao_180D] in *.
  assert (Hh : forall x, In x (r :: rev pre ++ []) -> a_CNPJ x = a_CNPJ r -> 0 <= a_Captacao x).
  { intros x Hx Hx'. apply Hnn; [|congruence].
    apply (Permutation_in _ (sort_values_perm df)). rewrite Heq.
    rewrite app_nil_r in Hx. destruct Hx as [<-|Hx].
    - apply in_or_app; right; left; reflexivity.
    - apply in_or_app; left. apply in_rev, Hx. }
  split; apply window_sum_mono; (lia || exact Hh).
Qed.

(** ** Instances of the claims on sample data *)

Lemma rolling_window_right_closed_witness :
  NoDup (map agg_key ex_window) /\
  ((forall w, In w (rolling ex_window) -> exists r, In r ex_window /\ w = spec_row ex_window r) /\
   (forall r, In r ex_window -> In (spec_row ex_window r) (rolling ex_window)) /\
   sums_at (days_from_civil 2024 2 1) (rolling ex_window) = [(20, 120, 120)]).
Proof.
  assert (H : NoDup (map agg_key ex_window)).
  { vm_compute. repeat constructor; intros H; simpl in H;
      repeat destruct H as [H|H]; try contradiction; congruence. }
  split; [exact H|exact (rolling_window_right_closed ex_window H)].
Defined.

Lemma df_agg_conservation_witness :
  existsb (has_key (fundo_E, days_from_civil 2024 1 2)) ex_flows = true /\
  ((exists r, In r (df_agg ex_flows) /\ agg_key r = (fundo_E, days_from_civil 2024 1 2) /\
      a_Captacao r = valid_sum (fundo_E, days_from_civil 2024 1 2) ex_flows) /\
   (forall r, In r (df_agg ex_flows) -> agg_key r = (fundo_E, days_from_civil 2024 1 2) ->
      a_Captacao r = valid_sum (fundo_E, days_from_civil 2024 1 2) ex_flows) /\
   ((forall x, In x ex_flows -> has_key (fundo_E, days_from_civil 2024 1 2) x = true ->
       Captacao_Liquida x = None) ->
    exists r, In r (df_agg ex_flows) /\ agg_key r = (fundo_E, days_from_civil 2024 1 2) /\
      a_Captacao r = 0)).
Proof.
  assert (H : existsb (has_key (fundo_E, days_from_civil 2024 1 2)) ex_flows = true)
    by (vm_compute; reflexivity).
  split; [exact H|exact (df_agg_conservation ex_flows _ H)].
Defined.

Lemma df_agg_drops_undated_witness :
  Data_Comptc undated = None /\
  df_agg ([row_E 2024 1 1 100] ++ undated :: [row_E 2024 1 2 5]) =
  df_agg ([row_E 2024 1 1 100] ++ [row_E 2024 1 2 5]).
Proof.
  split; [reflexivity|apply df_agg_drops_undated; reflexivity].
Defined.

Lemma first_row_windows_own_flow_witness :
  NoDup (map agg_key ex_window) /\ In ex_first (rolling ex_window) /\
  (forall r, In r ex_window -> a_CNPJ r = w_CNPJ ex_first -> w_Data ex_first <= a_Data r) /\
  (Captacao_30D ex_first = w_Captacao ex_first /\ Captacao_90D ex_first = w_Captacao ex_first /\
   Captacao_180D ex_first = w_Captacao ex_first).
Proof.
  assert (H1 : NoDup (map agg_key ex_window)).
  { vm_compute. repeat constructor; intros H; simpl in H;
      repeat destruct H as [H|H]; try contradiction; congruence. }
  assert (H2 : In ex_first (rolling ex_window)) by (vm_compute; left; reflexivity).
  assert (H3 : forall r, In r ex_window -> a_CNPJ r = w_CNPJ ex_first ->
                 w_Data ex_first <= a_Data r).
  { intros r Hr _. vm_compute in Hr.
    destruct Hr as [<-|[<-|[<-|[]]]]; vm_compute; discriminate. }
  split; [exact H1|split; [exact H2|split; [exact H3|]]].
  exact (first_row_windows_own_flow ex_window ex_first H1 H2 H3).
Defined.

Lemma windows_nested_nonneg_witness :
  (forall r, In r ex_snapshot -> a_CNPJ r = fundo_A -> 0 <= a_Captacao r) /\
  In ex_latest_A (rolling ex_snapshot) /\ w_CNPJ ex_latest_A = fundo_A /\
  ((Captacao_30D ex_latest_A <= Captacao_90D ex_latest_A <= Captacao_180D ex_latest_A) /\
   sums_at (days_from_civil 2024 3 1) (rolling ex_negative) = [(3, -7, -7)]).
Proof.
  assert (H1 : forall r, In r ex_snapshot -> a_CNPJ r = fundo_A -> 0 <= a_Captacao r).
  { intros r Hr _. simpl in Hr.
    destruct Hr as [<-|[<-|[<-|[<-|[]]]]]; simpl; lia. }
  assert (H2 : In ex_latest_A (rolling ex_snapshot)) by (vm_compute; right; left; reflexivity).
  assert (H3 : w_CNPJ ex_latest_A = fundo_A) by reflexivity.
  split; [exact H1|split; [exact H2|split; [exact H3|]]].
  exact (windows_nested_nonneg ex_snapshot fundo_A ex_latest_A H1 H2 H3).
Defined.

Lemma snapshot_global_max_witness :
  (exists r, In r (rolling ex_snapshot) /\
     forall r', In r' (rolling ex_snapshot) -> w_CNPJ r' = fundo_B -> w_Data r' < w_Data r) /\
  (forall w, In w (df_filtrado (rolling ex_snapshot)) -> w_CNPJ w <> fundo_B).
Proof.
  assert (H : exists r, In r (rolling ex_snapshot) /\
     forall r', In r' (rolling ex_snapshot) -> w_CNPJ r' = fundo_B -> w_Data r' < w_Data r).
  { exists ex_latest_A. split; [vm_compute; right; left; reflexivity|].
    intros r' Hr' He. vm_compute in Hr'.
    destruct Hr' as [<-|[<-|[<-|[<-|[]]]]]; vm_compute in He |- *;
      try discriminate; reflexivity. }
  split; [exact H|].
  exact (proj1 (proj2 (snapshot_global_max (rolling ex_snapshot))) fundo_B H).
Defined.

(** * Further properties of the script *)

(** ** Month list and download URLs *)

Lemma dec_aux_S (f : nat) (x : Z) (acc : string) :
  dec_aux (S f) x acc =
  if x <? 10 then String (digit (x mod 10)) acc
  else dec_aux f (x / 10) (String (digit (x mod 10)) acc).
Proof. reflexivity. Qed.

Lemma dec_4 (y : Z) : 1000 <= y <= 9999 ->
  dec y = String (digit (y / 1000)) (String (digit (y / 100 mod 10))
            (String (digit (y / 10 mod 10)) (String (digit (y mod 10)) EmptyString))).
Proof.
  intros H. unfold dec.
  rewrite dec_aux_S. replace (y <? 10) with false by (symmetry; apply Z.ltb_ge; Z.div_mod_to_equations; lia).
  rewrite dec_aux_S. replace (y / 10 <? 10) with false by (symmetry; apply Z.ltb_ge; Z.div_mod_to_equations; lia).
  rewrite dec_aux_S. replace (y / 10 / 10 <? 10) with false by (symmetry; apply Z.ltb_ge; Z.div_mod_to_equations; lia).
  rewrite dec_aux_S. replace (y / 10 / 10 / 10 <? 10) with true by (symmetry; apply Z.ltb_lt; Z.div_mod_to_equations; lia).
  rewrite !Z.div_div by lia.
  replace (y / (10 * (10 * 10)) mod 10) with (y / 1000) by (Z.div_mod_to_equations; lia).
  replace (y / (10 * 100) mod 10) with (y / 1000) by (Z.div_mod_to_equations; lia).
  replace (10 * 10) with 100 by reflexivity.
  reflexivity.
Qed.

Lemma digit_val (k : Z) : 0 <= k <= 9 -> Z.of_nat (nat_of_ascii (digit k)) - 48 = k.
Proof.
  intros H. unfold digit. rewrite nat_ascii_embedding by lia. lia.
Qed.

Lemma digit_inj (a b : Z) : 0 <= a <= 9 -> 0 <= b <= 9 -> digit a = digit b -> a = b.
Proof.
  intros Ha Hb E. rewrite <- (digit_val a Ha), <- (digit_val b Hb), E. reflexivity.
Qed.

Lemma strftime_Ym_inj (y m y' m' : Z) :
  1000 <= y <= 9999 -> 1 <= m <= 12 -> 1000 <= y' <= 9999 -> 1 <= m' <= 12 ->
  strftime_Ym y m = strftime_Ym y' m' -> y = y' /\ m = m'.
Proof.
  intros Hy Hm Hy' Hm' E. unfold strftime_Ym in E. rewrite !dec_4 in E by assumption.
  simpl in E. injection E as E1 E2 E3 E4 E5 E6.
  apply digit_inj in E1, E2, E3, E4, E5, E6;
    try (Z.div_mod_to_equations; lia).
Qed.

Lemma mes_anterior_spec (ano mes : Z) (i : nat) :
  let ym := mes_anterior ano mes i in
  1 <= snd ym <= 12 /\ 12 * fst ym + snd ym = 12 * ano + mes - Z.of_nat i.
Proof. unfold mes_anterior; cbn [fst snd]. Z.div_mod_to_equations. lia. Qed.

Lemma ultimos_meses_seq0 (ano mes : Z) (n : nat) :
  1 <= mes <= 12 ->
  strftime_Ym ano mes :: ultimos_meses ano mes n =
  map (fun i => strftime_Ym (fst (mes_anterior ano mes i)) (snd (mes_anterior ano mes i)))
    (seq 0 (S n)).
Proof.
  intros Hm. unfold ultimos_meses. cbn [seq map]. f_equal. unfold mes_anterior; cbn [fst snd].
  f_equal; Z.div_mod_to_equations; lia.
Qed.

Lemma ultimos_meses_nodup (ano mes : Z) (n : nat) :
  1 <= mes <= 12 -> ano <= 9999 -> 12000 + Z.of_nat n <= 12 * ano + mes - 1 ->
  NoDup (strftime_Ym ano mes :: ultimos_meses ano mes n).
Proof.
  intros Hm Hy Hold. rewrite ultimos_meses_seq0 by exact Hm.
  apply NoDup_map_NoDup_ForallPairs; [|apply seq_NoDup].
  intros a b Ha Hb E. apply in_seq in Ha, Hb.
  pose proof (mes_anterior_spec ano mes a) as [Ma Ia].
  pose proof (mes_anterior_spec ano mes b) as [Mb Ib].
  apply strftime_Ym_inj in E; try assumption; try lia.
  all: unfold mes_anterior in *; cbn [fst snd] in *; Z.div_mod_to_equations; lia.
Qed.

Lemma list_ascii_of_string_append (a b : string) :
  list_ascii_of_string (a ++ b) = list_ascii_of_string a ++ list_ascii_of_string b.
Proof. induction a as [|c a IH]; simpl; [reflexivity|]. rewrite IH; reflexivity. Qed.

Lemma url_inf_diario_inj (a b : string) : url_inf_diario a = url_inf_diario b -> a = b.
Proof.
  unfold url_inf_diario. intros E.
  apply (f_equal list_ascii_of_string) in E.
  rewrite !list_ascii_of_string_append in E.
  apply app_inv_head, app_inv_tail in E.
  rewrite <- (string_of_list_ascii_of_string a), <- (string_of_list_ascii_of_string b), E.
  reflexivity.
Qed.

Lemma NoDup_map_inj {A B} (f : A -> B) (l : list A) :
  (forall a b, f a = f b -> a = b) -> NoDup l -> NoDup (map f l).
Proof.
  intros Hf; induction 1 as [|x l Hx Hl IH]; simpl; constructor; [|exact IH].
  intros Hin. apply in_map_iff in Hin as [y [Hy Hin]]. apply Hf in Hy; subst y. contradiction.
Qed.

(** ** Lists, filters and digits *)

Lemma filter_idem {A} (f : A -> bool) (l : list A) : filter f (filter f l) = filter f l.
Proof.
  induction l as [|x l IH]; simpl; [reflexivity|].
  destruct (f x) eqn:E; simpl; [rewrite E, IH|]; auto.
Qed.

Lemma df_consolidado_filter (meses : list (list RawRow)) :
  df_consolidado meses = filter eh_FI (List.concat meses).
Proof.
  unfold df_consolidado. induction meses as [|m meses IH]; simpl; [reflexivity|].
  rewrite filter_app, IH. reflexivity.
Qed.

Lemma so_digitos_digits (s : string) :
  forallb is_digit (list_ascii_of_string (so_digitos s)) = true.
Proof.
  induction s as [|c s IH]; simpl; [reflexivity|].
  destruct (is_digit c) eqn:E; simpl; [rewrite E|]; exact IH.
Qed.

Lemma so_digitos_id (s : string) :
  forallb is_digit (list_ascii_of_string s) = true -> so_digitos s = s.
Proof.
  induction s as [|c s IH]; simpl; [reflexivity|].
  intros H. apply andb_prop in H as [Hc Hs]. rewrite Hc, IH by exact Hs. reflexivity.
Qed.

(** ** Sections 1 to 5: months, URLs, FI filter, CNPJ normalisation *)



(** With four-digit years, the months of [ultimos_meses(n)] are pairwise
    distinct and none of them is the current month. *)
Theorem ultimos_meses_distintos (ano mes : Z) (n : nat) :
  1 <= mes <= 12 -> ano <= 9999 -> 12000 + Z.of_nat n <= 12 * ano + mes - 1 ->
  NoDup (ultimos_meses ano mes n) /\ ~ In (strftime_Ym ano mes) (ultimos_meses ano mes n).
Proof.
  intros Hm Hy Hold. pose proof (ultimos_meses_nodup ano mes n Hm Hy Hold) as H.
  apply NoDup_cons_iff in H as [H1 H2]. split; assumption.
Qed.

Lemma ultimos_meses_distintos_witness :
  (1 <= 3 <= 12 /\ 2025 <= 9999 /\ 12000 + Z.of_nat 9 <= 12 * 2025 + 3 - 1) /\
  NoDup (ultimos_meses 2025 3 9) /\ ~ In (strftime_Ym 2025 3) (ultimos_meses 2025 3 9).
Proof. split; [lia|]. apply (ultimos_meses_distintos 2025 3 9); lia. Defined.

(** Section 2: the loop downloads a different file for each month. *)
Theorem urls_distintas (ano mes : Z) (n : nat) :
  1 <= mes <= 12 -> ano <= 9999 -> 12000 + Z.of_nat n <= 12 * ano + mes - 1 ->
  NoDup (map url_inf_diario (ultimos_meses ano mes n)).
Proof.
  intros Hm Hy Hold. apply NoDup_map_inj; [exact url_inf_diario_inj|].
  pose proof (ultimos_meses_nodup ano mes n Hm Hy Hold) as H.
  apply NoDup_cons_iff in H as [_ H]. exact H.
Qed.

Lemma urls_distintas_witness :
  (1 <= 3 <= 12 /\ 2025 <= 9999 /\ 12000 + Z.of_nat 9 <= 12 * 2025 + 3 - 1) /\
  NoDup (map url_inf_diario (ultimos_meses 2025 3 9)).
Proof. split; [lia|]. apply (urls_distintas 2025 3 9); lia. Defined.

(** Section 4B: the final FI filter never removes a row, since every monthly
    frame was already filtered to FI. *)
Theorem filtro_final_nada_remove (meses : list (list RawRow)) :
  registros_removidos (df_consolidado meses) = 0%nat /\
  filtro_final (df_consolidado meses) = df_consolidado meses.
Proof.
  assert (H : filtro_final (df_consolidado meses) = df_consolidado meses).
  { unfold filtro_final. rewrite df_consolidado_filter. apply filter_idem. }
  split; [|exact H]. unfold registros_removidos. rewrite H. apply Nat.sub_diag.
Qed.

(** Section 5: a normalised CNPJ has only decimal digits, and normalising it
    again changes nothing. *)
Theorem normaliza_cnpj_digitos (o : option string) :
  forallb is_digit (list_ascii_of_string (normaliza_cnpj o)) = true /\
  normaliza_cnpj (Some (normaliza_cnpj o)) = normaliza_cnpj o.
Proof.
  split; [apply so_digitos_digits|].
  unfold normaliza_cnpj at 1. apply so_digitos_id, so_digitos_digits.
Qed.


(** ** Sections 3 to 6 composed *)

Lemma key_eqb_pair (e e' : string) (d d' : Z) :
  key_eqb (e, d) (e', d') = String.eqb e e' && (d =? d').
Proof.
  apply Bool.eq_iff_eq_true. rewrite key_eqb_eq, andb_true_iff, String.eqb_eq, Z.eqb_eq.
  split; [intros H; inversion H; auto|intros [-> ->]; reflexivity].
Qed.

(** Whether a raw row feeds the group of fund [e] at date [d]. *)
Lemma has_key_to_flow (e : string) (d : Z) (x : RawRow) :
  has_key (e, d) (to_flow x) =
  match DT_COMPTC x with
  | Some t => String.eqb e (normaliza_cnpj (raw_CNPJ_FUNDO_CLASSE x)) && (d =? t)
  | None => false
  end.
Proof. unfold has_key, to_flow; simpl. destruct (DT_COMPTC x); [apply key_eqb_pair|reflexivity]. Qed.

Lemma df_agg_row (df : list FlowRecord) (r : AggRow) :
  In r (df_agg df) ->
  existsb (has_key (agg_key r)) df = true /\ a_Captacao r = valid_sum (agg_key r) df.
Proof.
  unfold df_agg. intros Hr. apply in_map_iff in Hr as [[k v] [<- Hin]].
  pose proof (group_sum_lookup k (group_rows df)) as Hl.
  rewrite (ksorted_lookup_In _ _ _ (group_sum_sorted _) Hin) in Hl.
  rewrite group_rows_exists, group_rows_sum in Hl.
  rewrite agg_key_to_row. simpl. destruct (existsb (has_key k) df); [|discriminate].
  injection Hl as Hv. split; [reflexivity|exact Hv].
Qed.


Lemma valid_sum_to_flow (k : key) (l : list RawRow) :
  valid_sum k (map to_flow l) =
  sum_by (fun x => if has_key k (to_flow x)
                   then match captacao_dia x with Some v => v | None => 0 end else 0) l.
Proof.
  induction l as [|x l IH]; simpl; [reflexivity|]. rewrite IH.
  destruct (has_key k (to_flow x)); [|reflexivity]. simpl.
  destruct (captacao_dia x); reflexivity.
Qed.

Lemma sum_by_filter {A} (f : A -> Z) (p : A -> bool) (l : list A) :
  sum_by f (filter p l) = sum_by (fun x => if p x then f x else 0) l.
Proof.
  induction l as [|x l IH]; simpl; [reflexivity|].
  destruct (p x); simpl; rewrite IH; reflexivity.
Qed.

Lemma existsb_map' {A B} (f : B -> bool) (g : A -> B) (l : list A) :
  existsb f (map g l) = existsb (fun x => f (g x)) l.
Proof. induction l as [|x l IH]; simpl; [reflexivity|]. rewrite IH. reflexivity. Qed.

Lemma existsb_filter {A} (f p : A -> bool) (l : list A) :
  existsb f (filter p l) = existsb (fun x => p x && f x) l.
Proof.
  induction l as [|x l IH]; simpl; [reflexivity|].
  destruct (p x); simpl; rewrite IH; reflexivity.
Qed.

(** Every row of [df_agg] built from the downloaded months comes from an
    FI row of some month with that normalised CNPJ and that date, and its
    net flow is the sum of [CAPTC_DIA - RESG_DIA] over all FI rows of all
    months with that fund and date, a row with [CAPTC_DIA] or [RESG_DIA]
    missing adding 0. *)
Theorem etl_df_agg_linhas (meses : list (list RawRow)) (r : AggRow) :
  In r (etl_df_agg meses) ->
  (exists x, In x (List.concat meses) /\ eh_FI x = true /\
     normaliza_cnpj (raw_CNPJ_FUNDO_CLASSE x) = a_CNPJ r /\ DT_COMPTC x = Some (a_Data r)) /\
  a_Captacao r =
  sum_by (fun x =>
    if eh_FI x && match DT_COMPTC x with
                  | Some t => String.eqb (a_CNPJ r) (normaliza_cnpj (raw_CNPJ_FUNDO_CLASSE x))
                              && (a_Data r =? t)
                  | None => false
                  end
    then match captacao_dia x with Some v => v | None => 0 end else 0) (List.concat meses).
Proof.
  unfold etl_df_agg. intros Hr. apply df_agg_row in Hr as [Hex Hv].
  rewrite (proj2 (filtro_final_nada_remove meses)), df_consolidado_filter in Hex, Hv.
  split.
  - rewrite existsb_map', existsb_filter in Hex. apply existsb_exists in Hex as [x [Hin Hx]].
    apply andb_prop in Hx as [Hfi Hk]. exists x. split; [exact Hin|split; [exact Hfi|]].
    unfold agg_key in Hk. rewrite has_key_to_flow in Hk.
    destruct (DT_COMPTC x); [|discriminate].
    apply andb_prop in Hk as [He Hd]. apply String.eqb_eq in He. apply Z.eqb_eq in Hd.
    rewrite He, Hd. split; reflexivity.
  - rewrite Hv, valid_sum_to_flow, sum_by_filter. apply sum_by_ext_in. intros x _.
    unfold agg_key. rewrite has_key_to_flow. destruct (eh_FI x); reflexivity.
Qed.

Lemma etl_df_agg_linhas_witness :
  In agg_E (etl_df_agg ex_meses) /\
  ((exists x, In x (List.concat ex_meses) /\ eh_FI x = true /\
     normaliza_cnpj (raw_CNPJ_FUNDO_CLASSE x) = a_CNPJ agg_E /\ DT_COMPTC x = Some (a_Data agg_E)) /\
  a_Captacao agg_E =
  sum_by (fun x =>
    if eh_FI x && match DT_COMPTC x with
                  | Some t => String.eqb (a_CNPJ agg_E) (normaliza_cnpj (raw_CNPJ_FUNDO_CLASSE x))
                              && (a_Data agg_E =? t)
                  | None => false
                  end
    then match captacao_dia x with Some v => v | None => 0 end else 0) (List.concat ex_meses)).
Proof.
  assert (H : In agg_E (etl_df_agg ex_meses)) by (vm_compute; left; reflexivity).
  split; [exact H|]. exact (etl_df_agg_linhas ex_meses agg_E H).
Defined.



(** ** Section 7: the validation step *)

Lemma sum_key_cons (k : key) (kv : key * Z) (l : list (key * Z)) :
  sum_key k (kv :: l) = (if key_eqb k (fst kv) then snd kv else 0) + sum_key k l.
Proof. reflexivity. Qed.

Lemma sum_key_ones_nonneg (k : key) (df : list AggRow) :
  0 <= sum_key k (map (fun r => (agg_key r, 1)) df).
Proof.
  induction df as [|r df IH]; [reflexivity|].
  simpl map; rewrite sum_key_cons; simpl. destruct (key_eqb k (agg_key r)); lia.
Qed.

Lemma sum_key_ones_pos (k : key) (df : list AggRow) :
  In k (map agg_key df) -> 1 <= sum_key k (map (fun r => (agg_key r, 1)) df).
Proof.
  induction df as [|r df IH]; cbn [map In]; [contradiction|]. intros [<-|Hin].
  - rewrite sum_key_cons, key_eqb_refl. cbn [fst snd]. pose proof (sum_key_ones_nonneg (agg_key r) df). lia.
  - rewrite sum_key_cons. cbn [fst snd]. specialize (IH Hin). destruct (key_eqb k (agg_key r)); lia.
Qed.

(** Keys counted at most once are pairwise distinct. *)
Lemma counts_le1_NoDup (df : list AggRow) :
  (forall k, In k (map agg_key df) -> sum_key k (map (fun r => (agg_key r, 1)) df) <= 1) ->
  NoDup (map agg_key df).
Proof.
  induction df as [|r df IH]; cbn [map]; intros H; [constructor|]. constructor.
  - intros Hin. specialize (H (agg_key r) (or_introl eq_refl)).
    rewrite sum_key_cons, key_eqb_refl in H. cbn [fst snd] in H.
    pose proof (sum_key_ones_pos _ _ Hin). lia.
  - apply IH. intros k Hk. specialize (H k (or_intror Hk)).
    rewrite sum_key_cons in H. cbn [fst snd] in H.
    destruct (key_eqb k (agg_key r)); [pose proof (sum_key_ones_nonneg k df)|]; lia.
Qed.

Lemma n_duplicados_zero (df : list AggRow) :
  n_duplicados df = 0%nat -> NoDup (map agg_key df).
Proof.
  unfold n_duplicados. intros H. apply length_zero_iff_nil in H.
  apply counts_le1_NoDup. intros k Hk.
  pose proof (group_sum_lookup k (map (fun r => (agg_key r, 1)) df)) as Hl.
  replace (existsb _ _) with true in Hl.
  - apply lookup_In in Hl. destruct (Z.le_gt_cases (sum_key k (map (fun r => (agg_key r, 1)) df)) 1)
      as [Hle|Hgt]; [exact Hle|].
    assert (Hf : In (k, sum_key k (map (fun r => (agg_key r, 1)) df))
                    (filter (fun kv => 1 <? snd kv) (duplicados df)))
      by (apply filter_In; split; [exact Hl|apply Z.ltb_lt; exact Hgt]).
    rewrite H in Hf. contradiction.
  - symmetry. apply existsb_exists. apply in_map_iff in Hk as [r [<- Hr]].
    exists (agg_key r, 1). split; [apply (in_map (fun r => (agg_key r, 1)) _ _ Hr)|apply key_eqb_refl].
Qed.

Lemma validate_NoDup (df : list AggRow) : NoDup (map agg_key (validate df)).
Proof.
  unfold validate. destruct (0 <? n_duplicados df)%nat eqn:E.
  - unfold df_agg. rewrite map_agg_key_to_row. apply ksorted_NoDup, group_sum_sorted.
  - apply n_duplicados_zero. apply Nat.ltb_ge in E. lia.
Qed.

(** After section 7 no (fund, date) key is repeated, whatever frame the
    check receives: either it found no duplicate, or it re-aggregated. *)
Theorem validacao_chaves_unicas (df : list AggRow) : NoDup (map agg_key (validate df)).
Proof. apply validate_NoDup. Qed.

(** ** Section 8: shape of the rolling result *)

Lemma rolling_aux_rows (hist s : list AggRow) :
  map (fun w => (w_CNPJ w, w_Data w, w_Captacao w)) (rolling_aux hist s) =
  map (fun r => (a_CNPJ r, a_Data r, a_Captacao r)) s.
Proof.
  revert hist; induction s as [|r s IH]; intros hist; simpl; [reflexivity|]. rewrite IH. reflexivity.
Qed.

Lemma rolling_aux_keys (hist s : list AggRow) :
  map (fun w => (w_CNPJ w, w_Data w)) (rolling_aux hist s) = map agg_key s.
Proof.
  revert hist; induction s as [|r s IH]; intros hist; simpl; [reflexivity|]. rewrite IH. reflexivity.
Qed.

Lemma StronglySorted_map {A B} (R : A -> A -> Prop) (R' : B -> B -> Prop) (f : A -> B) (l : list A) :
  (forall a b, R a b -> R' (f a) (f b)) -> StronglySorted R l -> StronglySorted R' (map f l).
Proof.
  intros HR; induction 1 as [|a l Hs IH Hall]; simpl; constructor; [exact IH|].
  apply Forall_map. eapply Forall_impl; [|exact Hall]. intros b; apply HR.
Qed.

Lemma rolling_NoDup (df : list AggRow) :
  NoDup (map agg_key df) -> NoDup (map (fun w => (w_CNPJ w, w_Data w)) (rolling df)).
Proof.
  intros H. unfold rolling. rewrite rolling_aux_keys.
  eapply Permutation_NoDup; [|exact H]. apply Permutation_map, Permutation_sym, sort_values_perm.
Qed.

(** Section 8 keeps every row of its input, with its fund, date and net
    flow, once, and returns them sorted by fund and date. *)
Theorem rolling_linhas_ordenadas (df : list AggRow) :
  Permutation (map (fun w => (w_CNPJ w, w_Data w, w_Captacao w)) (rolling df))
              (map (fun r => (a_CNPJ r, a_Data r, a_Captacao r)) df) /\
  StronglySorted key_le (map (fun w => (w_CNPJ w, w_Data w)) (rolling df)).
Proof.
  unfold rolling. split.
  - rewrite rolling_aux_rows. apply Permutation_map, sort_values_perm.
  - rewrite rolling_aux_keys. apply (StronglySorted_map row_le); [|apply sort_values_sorted].
    intros a b H; exact H.
Qed.

(** ** Section 10: the left merge *)

Lemma map_const' {A B} (b : B) (l : list A) : map (fun _ => b) l = repeat b (List.length l).
Proof. induction l as [|x l IH]; simpl; [reflexivity|]. rewrite IH. reflexivity. Qed.

Lemma merge_left_cons (w : WinRow) (df : list WinRow) (cad : list (string * option string)) :
  merge_left (w :: df) cad =
  match filter (fun c => String.eqb (fst c) (w_CNPJ w)) cad with
  | [] => [{| m_win := w; m_DENOM_SOCIAL := None |}]
  | ms => map (fun c => {| m_win := w; m_DENOM_SOCIAL := snd c |}) ms
  end ++ merge_left df cad.
Proof. reflexivity. Qed.

Lemma merge_left_wins (df : list WinRow) (cad : list (string * option string)) :
  map m_win (merge_left df cad) =
  flat_map (fun w => repeat w (Nat.max 1 (List.length (filter (fun c => String.eqb (fst c) (w_CNPJ w)) cad)))) df.
Proof.
  induction df as [|w df IH]; [reflexivity|].
  rewrite merge_left_cons, map_app, IH. cbn [flat_map]. f_equal.
  destruct (filter _ cad) as [|c cs]; [reflexivity|].
  rewrite map_map. cbn [m_win]. rewrite map_const'. reflexivity.
Qed.

Lemma filter_unique_key (cad : list (string * option string)) (e : string) :
  NoDup (map fst cad) ->
  filter (fun c => String.eqb (fst c) e) cad =
  match find (fun c => String.eqb (fst c) e) cad with Some c => [c] | None => [] end.
Proof.
  induction cad as [|c cad IH]; simpl; intros Hn; [reflexivity|].
  apply NoDup_cons_iff in Hn as [Hc Hn].
  destruct (String.eqb (fst c) e) eqn:E; [|apply IH, Hn]. f_equal.
  apply String.eqb_eq in E. destruct (filter _ cad) as [|c' cs] eqn:F; [reflexivity|].
  exfalso. apply Hc. assert (Hin : In c' (filter (fun c => String.eqb (fst c) e) cad))
    by (rewrite F; left; reflexivity).
  apply filter_In in Hin as [Hin Heq]. apply String.eqb_eq in Heq.
  rewrite E, <- Heq. apply in_map, Hin.
Qed.

Lemma merge_left_unique (df : list WinRow) (cad : list (string * option string)) :
  NoDup (map fst cad) ->
  merge_left df cad =
  map (fun w => {| m_win := w;
                   m_DENOM_SOCIAL := match find (fun c => String.eqb (fst c) (w_CNPJ w)) cad with
                                     | Some c => snd c
                                     | None => None
                                     end |}) df.
Proof.
  intros Hn. induction df as [|w df IH]; [reflexivity|].
  rewrite merge_left_cons, IH, (filter_unique_key cad (w_CNPJ w) Hn). cbn [map].
  destruct (find _ cad); reflexivity.
Qed.


(** When the normalised register ids are distinct, the merge adds exactly
    one row per left row, carrying the name of the register row with its
    id, or no name. *)
Theorem merge_left_cadastro_unico (df : list WinRow) (cad : list (string * option string)) :
  NoDup (map fst cad) ->
  merge_left df cad =
  map (fun w => {| m_win := w;
                   m_DENOM_SOCIAL := match find (fun c => String.eqb (fst c) (w_CNPJ w)) cad with
                                     | Some c => snd c
                                     | None => None
                                     end |}) df.
Proof. apply merge_left_unique. Qed.

(** ** Section 15: the final duplicate check *)

Lemma group_sum_keys (k : key) (l : list (key * Z)) :
  In k (map fst (group_sum l)) <-> In k (map fst l).
Proof.
  pose proof (group_sum_lookup k l) as Hl. split.
  - intros Hin. apply in_map_iff in Hin as [[k' v] [Hk Hin]]; simpl in Hk; subst k'.
    rewrite (ksorted_lookup_In _ _ _ (group_sum_sorted l) Hin) in Hl.
    destruct (existsb _ l) eqn:E; [|discriminate].
    apply existsb_exists in E as [[k' v'] [Hin' Heq]]. apply key_eqb_eq in Heq; simpl in Heq; subst k'.
    apply (in_map fst _ _ Hin').
  - intros Hin. apply in_map_iff in Hin as [[k' v] [Hk Hin]]; simpl in Hk; subst k'.
    replace (existsb _ l) with true in Hl.
    + apply lookup_In in Hl. apply (in_map fst _ _ Hl).
    + symmetry. apply existsb_exists. exists (k, v). split; [exact Hin|apply key_eqb_refl].
Qed.

(** [n_unicos == n_registros] holds exactly when no (fund, date) key is
    repeated. *)
Lemma verificacao_final_NoDup (df : list MergedRow) :
  verificacao_final df = true <-> NoDup (map merged_key df).
Proof.
  unfold verificacao_final. rewrite Nat.eqb_eq.
  set (l := map (fun m => (merged_key m, 1)) df).
  assert (Hk : map fst l = map merged_key df) by (unfold l; rewrite map_map; reflexivity).
  assert (Hlen : List.length l = List.length df) by (unfold l; apply length_map).
  pose proof (ksorted_NoDup _ (group_sum_sorted l)) as Hn.
  split.
  - intros E. rewrite <- Hk.
    eapply NoDup_incl_NoDup; [exact Hn| |].
    + rewrite !length_map, Hlen, E. reflexivity.
    + intros k. apply group_sum_keys.
  - intros Hd. rewrite <- Hk in Hd.
    pose proof (NoDup_Permutation Hn Hd (fun k => group_sum_keys k l)) as P.
    apply Permutation_length in P. rewrite !length_map in P. rewrite P. exact Hlen.
Qed.

Lemma NoDup_flat_map_part {A B} (f : A -> list B) (l : list A) (x : A) :
  NoDup (flat_map f l) -> In x l -> NoDup (f x).
Proof.
  intros Hn Hin. apply in_split in Hin as [l1 [l2 ->]].
  rewrite flat_map_app in Hn. apply NoDup_app_remove_l in Hn. simpl in Hn.
  apply NoDup_app_remove_r in Hn. exact Hn.
Qed.

Lemma repeat_not_NoDup {A B} (f : A -> B) (x : A) (n : nat) :
  (2 <= n)%nat -> ~ NoDup (map f (repeat x (Nat.max 1 n))).
Proof.
  intros H. destruct n as [|[|n]]; [lia|lia|]. simpl.
  intros Hn. apply NoDup_cons_iff in Hn as [Hn _]. apply Hn. left. reflexivity.
Qed.

(** The pipeline passes the final check of section 15 whenever the
    normalised ids of the register are distinct. *)
Theorem verificacao_final_ok (raw : list FlowRecord) (cad : list CadRow) :
  NoDup (map fst (df_cad cad)) ->
  verificacao_final (merge_left (rolling (validate (df_agg raw))) (df_cad cad)) = true.
Proof.
  intros Hn. apply verificacao_final_NoDup. rewrite merge_left_unique by exact Hn.
  rewrite map_map. apply rolling_NoDup, validate_NoDup.
Qed.

(** The final check fails as soon as one row of the frame finds two
    register rows with its fund id. *)
Theorem verificacao_final_falha (df : list WinRow) (cad : list (string * option string)) (w : WinRow) :
  In w df -> (2 <= List.length (filter (fun c => String.eqb (fst c) (w_CNPJ w)) cad))%nat ->
  verificacao_final (merge_left df cad) = false.
Proof.
  intros Hin H2. destruct (verificacao_final (merge_left df cad)) eqn:E; [|reflexivity].
  exfalso. apply verificacao_final_NoDup in E.
  replace (map merged_key (merge_left df cad))
    with (map (fun w => (w_CNPJ w, w_Data w)) (map m_win (merge_left df cad))) in E
    by (rewrite map_map; reflexivity).
  rewrite merge_left_wins, flat_map_concat_map, concat_map, map_map in E.
  rewrite <- flat_map_concat_map in E.
  apply (NoDup_flat_map_part _ _ w) in E; [|exact Hin].
  exact (repeat_not_NoDup _ w _ H2 E).
Qed.

Lemma merge_left_cadastro_unico_witness :
  NoDup (map fst (df_cad ex_cad)) /\
  merge_left (rolling ex_window) (df_cad ex_cad) =
  map (fun w => {| m_win := w;
                   m_DENOM_SOCIAL := match find (fun c => String.eqb (fst c) (w_CNPJ w)) (df_cad ex_cad) with
                                     | Some c => snd c
                                     | None => None
                                     end |}) (rolling ex_window).
Proof.
  assert (H : NoDup (map fst (df_cad ex_cad))).
  { vm_compute. repeat (apply NoDup_cons; [simpl; intuition discriminate|]). apply NoDup_nil. }
  split; [exact H|]. exact (merge_left_cadastro_unico (rolling ex_window) (df_cad ex_cad) H).
Defined.

Lemma verificacao_final_ok_witness :
  NoDup (map fst (df_cad ex_cad)) /\
  verificacao_final (merge_left (rolling (validate (df_agg ex_flows))) (df_cad ex_cad)) = true.
Proof.
  assert (H : NoDup (map fst (df_cad ex_cad))).
  { vm_compute. repeat (apply NoDup_cons; [simpl; intuition discriminate|]). apply NoDup_nil. }
  split; [exact H|]. exact (verificacao_final_ok ex_flows ex_cad H).
Defined.

Lemma verificacao_final_falha_witness :
  (In ex_first (rolling ex_window) /\
   (2 <= List.length (filter (fun c => String.eqb (fst c) (w_CNPJ ex_first)) (df_cad ex_cad_dup)))%nat) /\
  verificacao_final (merge_left (rolling ex_window) (df_cad ex_cad_dup)) = false.
Proof.
  assert (H1 : In ex_first (rolling ex_window)) by (vm_compute; left; reflexivity).
  assert (H2 : (2 <= List.length (filter (fun c => String.eqb (fst c) (w_CNPJ ex_first)) (df_cad ex_cad_dup)))%nat)
    by (apply Nat.leb_le; vm_compute; reflexivity).
  split; [split; assumption|]. exact (verificacao_final_falha _ _ ex_first H1 H2).
Defined.

(** ** Sections 12 and 13: snapshot and final layout *)

Lemma data_maxima_same (l1 l2 : list WinRow) :
  (forall r, In r l1 <-> In r l2) -> data_maxima l1 = data_maxima l2.
Proof.
  intros H. pose proof (data_maxima_spec l1) as H1. pose proof (data_maxima_spec l2) as H2.
  destruct (data_maxima l1) as [m1|], (data_maxima l2) as [m2|].
  - destruct H1 as [I1 A1], H2 as [I2 A2].
    apply in_map_iff in I1 as [r1 [<- R1]]. apply in_map_iff in I2 as [r2 [<- R2]].
    f_equal. apply Z.le_antisymm; [apply A2, H, R1|apply A1, H, R2].
  - destruct H1 as [I1 _]. apply in_map_iff in I1 as [r1 [_ R1]].
    apply H in R1. rewrite H2 in R1. contradiction.
  - destruct H2 as [I2 _]. apply in_map_iff in I2 as [r2 [_ R2]].
    apply H in R2. rewrite H1 in R2. contradiction.
  - reflexivity.
Qed.

Lemma merge_left_in_wins (df : list WinRow) (cad : list (string * option string)) (w : WinRow) :
  In w (map m_win (merge_left df cad)) <-> In w df.
Proof.
  rewrite merge_left_wins, in_flat_map. split.
  - intros [w' [Hw' Hr]]. apply repeat_spec in Hr. subst w'. exact Hw'.
  - intros Hw. exists w. split; [exact Hw|].
    destruct (Nat.max 1 _) eqn:E; [lia|left; reflexivity].
Qed.

Lemma merge_left_filter (q : WinRow -> bool) (df : list WinRow) (cad : list (string * option string)) :
  filter (fun m => q (m_win m)) (merge_left df cad) = merge_left (filter q df) cad.
Proof.
  induction df as [|w df IH]; [reflexivity|].
  rewrite merge_left_cons, filter_app, IH. simpl filter.
  destruct (q w) eqn:E.
  - rewrite merge_left_cons. f_equal.
    destruct (filter _ cad) as [|c cs]; simpl; rewrite E; [reflexivity|].
    f_equal. induction cs as [|c' cs IHc]; simpl; [reflexivity|]. rewrite E, IHc. reflexivity.
  - destruct (filter _ cad) as [|c cs]; simpl; rewrite E; [reflexivity|].
    induction cs as [|c' cs IHc]; simpl; [reflexivity|]. rewrite E. exact IHc.
Qed.

Lemma df_filtrado_merge (df : list WinRow) (cad : list (string * option string)) :
  df_filtrado_m (merge_left df cad) = merge_left (df_filtrado df) cad.
Proof.
  unfold df_filtrado_m, data_maxima_m, df_filtrado.
  rewrite (data_maxima_same (map m_win (merge_left df cad)) df) by apply merge_left_in_wins.
  apply (merge_left_filter (fun r => match data_maxima df with Some x => w_Data r =? x | None => false end)).
Qed.

(** Section 12 runs after the merge; filtering the merged frame on its
    latest date gives the merge of the latest rows of the windowed frame. *)
Theorem snapshot_depois_do_merge (df : list WinRow) (cad : list (string * option string)) :
  df_filtrado_m (merge_left df cad) = merge_left (df_filtrado df) cad.
Proof. apply df_filtrado_merge. Qed.

Lemma In_merge_left_named (df : list WinRow) (cad : list (string * option string))
    (m : MergedRow) (n : string) :
  In m (merge_left df cad) -> m_DENOM_SOCIAL m = Some n ->
  In (m_win m) df /\ In (w_CNPJ (m_win m), Some n) cad.
Proof.
  induction df as [|w df IH]; [intros []|].
  rewrite merge_left_cons. intros Hin Hn. apply in_app_or in Hin as [Hin|Hin].
  - destruct (filter _ cad) as [|c cs] eqn:F.
    + destruct Hin as [<-|[]]. discriminate.
    + apply in_map_iff in Hin as [c' [<- Hc']]. simpl in Hn |- *.
      rewrite <- F in Hc'. apply filter_In in Hc' as [Hc' He]. apply String.eqb_eq in He.
      split; [left; reflexivity|]. rewrite <- He, <- Hn. destruct c'; exact Hc'.
  - destruct (IH Hin Hn) as [H1 H2]. split; [right; exact H1|exact H2].
Qed.

Lemma merge_left_named_In (df : list WinRow) (cad : list (string * option string))
    (w : WinRow) (n : string) :
  In w df -> In (w_CNPJ w, Some n) cad ->
  In {| m_win := w; m_DENOM_SOCIAL := Some n |} (merge_left df cad).
Proof.
  induction df as [|w' df IH]; [intros []|]. intros [->|Hw] Hc; rewrite merge_left_cons; apply in_or_app.
  - left. assert (Hf : In (w_CNPJ w, Some n) (filter (fun c => String.eqb (fst c) (w_CNPJ w)) cad))
      by (apply filter_In; split; [exact Hc|apply String.eqb_refl]).
    destruct (filter _ cad) as [|c cs]; [contradiction|].
    apply (in_map (fun c => {| m_win := w; m_DENOM_SOCIAL := snd c |}) _ _ Hf).
  - right. apply IH; assumption.
Qed.

(** A row of the final table is the name [n] with a windowed row [w]
    exactly when [w] is a row of the latest date and the register has a
    row with [w]'s fund id and name [n]: a fund missing from the register,
    or registered without a name, is dropped. *)
Theorem df_final_linhas (df : list WinRow) (cad : list (string * option string)) (n : string) (w : WinRow) :
  In (n, w) (df_final (merge_left df cad)) <->
  In w (df_filtrado df) /\ In (w_CNPJ w, Some n) cad.
Proof.
  unfold df_final. rewrite df_filtrado_merge, in_flat_map. split.
  - intros [m [Hm Hin]]. destruct (m_DENOM_SOCIAL m) as [n'|] eqn:E; [|contradiction].
    destruct Hin as [Hin|[]]. injection Hin as <- <-.
    apply (In_merge_left_named _ _ _ _ Hm E).
  - intros [Hw Hc]. exists {| m_win := w; m_DENOM_SOCIAL := Some n |}. split; [|left; reflexivity].
    apply merge_left_named_In; assumption.
Qed.

(** Keeping some rows of a frame keeps its keys distinct. *)
Lemma filter_keeps_NoDup {A B} (key_of : A -> B) (keep : A -> bool) (rows : list A) :
  NoDup (map key_of rows) -> NoDup (map key_of (filter keep rows)).
Proof.
  induction rows as [|x rows IH]; cbn [map filter]; intros H; [constructor|].
  apply NoDup_cons_iff in H as [Hx H]. destruct (keep x); cbn [map]; [constructor|]; auto.
  intros Hin. apply Hx. apply in_map_iff in Hin as [y [Hy Hin]].
  apply filter_In in Hin as [Hin _]. rewrite <- Hy. apply in_map, Hin.
Qed.

Lemma NoDup_fund_same_date (l : list WinRow) (x : Z) :
  Forall (fun w => w_Data w = x) l -> NoDup (map (fun w => (w_CNPJ w, w_Data w)) l) ->
  NoDup (map w_CNPJ l).
Proof.
  induction 1 as [|w l Hw Hall IH]; simpl; intros H; [constructor|].
  apply NoDup_cons_iff in H as [Hn H]. constructor; [|auto].
  intros Hin. apply Hn. apply in_map_iff in Hin as [w' [He Hin]].
  rewrite Forall_forall in Hall. apply in_map_iff. exists w'. split; [|exact Hin].
  rewrite He, (Hall w' Hin), Hw. reflexivity.
Qed.

Lemma df_filtrado_dates (df : list WinRow) :
  exists x, Forall (fun w => w_Data w = x) (df_filtrado df).
Proof.
  unfold df_filtrado. destruct (data_maxima df) as [x|].
  - exists x. apply Forall_forall. intros w Hw. apply filter_In in Hw as [_ Hw]. apply Z.eqb_eq, Hw.
  - exists 0. induction df as [|w df IH]; simpl; [constructor|exact IH].
Qed.

(** With distinct register ids, each fund appears at most once in the
    snapshot of the merged frame, so [nunique()] of the funds is its
    number of rows. *)
Theorem snapshot_fundos_distintos (raw : list FlowRecord) (cad : list CadRow) :
  NoDup (map fst (df_cad cad)) ->
  NoDup (map (fun m => w_CNPJ (m_win m))
    (df_filtrado_m (merge_left (rolling (validate (df_agg raw))) (df_cad cad)))).
Proof.
  intros Hn. rewrite df_filtrado_merge, merge_left_unique by exact Hn. rewrite map_map. cbn [m_win].
  set (D := rolling (validate (df_agg raw))).
  destruct (df_filtrado_dates D) as [x Hx].
  apply (NoDup_fund_same_date _ x Hx). unfold df_filtrado.
  apply filter_keeps_NoDup, rolling_NoDup, validate_NoDup.
Qed.

Lemma snapshot_fundos_distintos_witness :
  NoDup (map fst (df_cad ex_cad)) /\
  NoDup (map (fun m => w_CNPJ (m_win m))
    (df_filtrado_m (merge_left (rolling (validate (df_agg ex_flows))) (df_cad ex_cad)))).
Proof.
  assert (H : NoDup (map fst (df_cad ex_cad))).
  { vm_compute. repeat (apply NoDup_cons; [simpl; intuition discriminate|]). apply NoDup_nil. }
  split; [exact H|]. exact (snapshot_fundos_distintos ex_flows ex_cad H).
Defined.

(** ** Section 9: [drop_duplicates] *)

Lemma opt_string_eqb_eq (a b : option string) : opt_string_eqb a b = true <-> a = b.
Proof.
  destruct a as [x|], b as [y|]; simpl; try (split; congruence).
  rewrite String.eqb_eq. split; [intros ->|intros H; injection H]; auto.
Qed.

Lemma cad_eqb_eq (a b : CadRow) : cad_eqb a b = true <-> a = b.
Proof.
  destruct a as [a1 a2], b as [b1 b2]. unfold cad_eqb; simpl.
  rewrite andb_true_iff, !opt_string_eqb_eq.
  split; [intros [-> ->]; reflexivity|intros H; injection H; auto].
Qed.

Lemma existsb_cad (c : CadRow) (seen : list CadRow) : existsb (cad_eqb c) seen = true <-> In c seen.
Proof.
  rewrite existsb_exists. split.
  - intros [c' [Hin E]]. apply cad_eqb_eq in E. subst c'. exact Hin.
  - intros Hin. exists c. split; [exact Hin|apply cad_eqb_eq; reflexivity].
Qed.

Lemma drop_dup_aux_spec (seen l : list CadRow) :
  NoDup (drop_dup_aux seen l) /\
  (forall c, In c (drop_dup_aux seen l) <-> In c l /\ ~ In c seen).
Proof.
  revert seen; induction l as [|x l IH]; intros seen; simpl.
  - split; [constructor|]. intros c; tauto.
  - destruct (existsb (cad_eqb x) seen) eqn:E.
    + apply existsb_cad in E. destruct (IH seen) as [Hn Hin]. split; [exact Hn|].
      intros c. rewrite Hin. split; [tauto|]. intros [[<-|H] Hs]; [contradiction|tauto].
    + destruct (IH (x :: seen)) as [Hn Hin]. split.
      * constructor; [|exact Hn]. rewrite Hin. simpl. tauto.
      * intros c. simpl. rewrite Hin. simpl.
        assert (~ In x seen) by (intros H; apply existsb_cad in H; congruence).
        split; [intros [<-|[H1 H2]]; tauto|].
        intros [[<-|H1] H2]; [left; reflexivity|].
        destruct (cad_eqb x c) eqn:Ex; [left; apply cad_eqb_eq, Ex|].
        right. split; [exact H1|]. intros [Hxc|Hs]; [|contradiction].
        subst c. rewrite (proj2 (cad_eqb_eq x x) eq_refl) in Ex. discriminate.
Qed.

(** [drop_duplicates()] keeps each distinct (CNPJ, name) row of the
    register exactly once and no other row. *)
Theorem drop_duplicates_unicos (l : list CadRow) :
  NoDup (drop_duplicates l) /\ (forall c, In c (drop_duplicates l) <-> In c l).
Proof.
  destruct (drop_dup_aux_spec [] l) as [Hn Hin]. split; [exact Hn|].
  intros c. unfold drop_duplicates. rewrite Hin. simpl. tauto.
Qed.

(** ** Section 15 (PDF): pages *)

Lemma firstn_add' {A} (a b : nat) (l : list A) :
  firstn (a + b) l = firstn a l ++ firstn b (skipn a l).
Proof.
  revert l; induction a as [|a IH]; intros l; [reflexivity|].
  destruct l as [|x l]; simpl; [destruct b; reflexivity|]. rewrite IH. reflexivity.
Qed.

Lemma paginas_aux {A} (rows : list A) (j c : nat) :
  List.concat (map (fun i => firstn 18 (skipn i rows)) (map (fun k => (k * 18)%nat) (seq j c))) =
  firstn (c * 18) (skipn (j * 18) rows).
Proof.
  revert j; induction c as [|c IH]; intros j; [reflexivity|].
  cbn [seq map List.concat]. rewrite IH.
  change (S c * 18)%nat with (18 + c * 18)%nat. rewrite firstn_add', skipn_skipn.
  reflexivity.
Qed.

(** The pages of the PDF loop hold all rows of the final table, in
    order, each row once. *)
Theorem paginas_concat {A} (rows : list A) : List.concat (paginas rows) = rows.
Proof.
  unfold paginas, range_step, linhas_por_pagina. rewrite paginas_aux. simpl skipn.
  apply firstn_all2.
  set (n := List.length rows). replace (n + 18 - 1)%nat with (n + 17)%nat by lia.
  pose proof (Nat.div_mod_eq (n + 17) 18). pose proof (Nat.mod_upper_bound (n + 17) 18).
  set (q := ((n + 17) / 18)%nat) in *. set (r := ((n + 17) mod 18)%nat) in *. lia.
Qed.

(** Every page of the PDF has between 1 and [linhas_por_pagina] = 18 rows. *)
Theorem paginas_tamanho {A} (rows : list A) (p : list A) :
  In p (paginas rows) -> (1 <= List.length p <= 18)%nat.
Proof.
  unfold paginas, range_step, linhas_por_pagina. rewrite map_map.
  intros Hp. apply in_map_iff in Hp as [k [<- Hk]]. apply in_seq in Hk.
  rewrite length_firstn, length_skipn.
  set (n := List.length rows) in *. replace (n + 18 - 1)%nat with (n + 17)%nat in Hk by lia.
  pose proof (Nat.Div0.mul_div_le (n + 17) 18).
  set (q := ((n + 17) / 18)%nat) in *. lia.
Qed.

Lemma paginas_tamanho_witness :
  In [36; 37; 38; 39]%nat (paginas (seq 0 40)) /\ (1 <= List.length [36; 37; 38; 39]%nat <= 18)%nat.
Proof.
  assert (H : In [36; 37; 38; 39]%nat (paginas (seq 0 40))) by (vm_compute; right; right; left; reflexivity).
  split; [exact H|]. exact (paginas_tamanho (seq 0 40) _ H).
Defined.
